(** * PCSI provenance ledger: canonical encoding, hashing, rule registry

    A shallow embedding of [main.py]: the canonical S-expression encoder
    ([SExpression]), the content model ([Link] ... [Article]), the three
    record kinds ([Rule], [Inference], [Perception]) and the ledger
    operations of [PCSISystem] ([add_rule], [find_matching_rule],
    [process_url], [add_perception], [export_records]).

    Conventions of the embedding.
    - A Python [str] is a list of code points ([N]); [len] is the number of
      code points.  Lone surrogates, which Python's [str] tolerates and its
      UTF-8 codec rejects, are code points like the others:
      [Utf8.encode_raises] tells when the codec raises and with what
      message, and [Utf8.encode] is the encoding where it does not.
    - Python [int] is [Z]; [Optional[T]] is [option T].  [str(n)] raises
      beyond the interpreter's digit limit: [str_of_int_raises] tells
      when, and [str_of_int] is the text where it does not.
    - A library call that raises is described by a function [*_raises]
      that gives [str(e)] of the exception, beside the function that gives
      the value returned otherwise.
    - The library functions the program calls are written out so that the
      model runs: UTF-8 encoding, SHA-256, base64, decimal printing, and
      the regular expressions of [re.match] for the pattern syntax the
      program uses.
    - What the outside world decides is an explicit input: the clock
      readings, the outcome of the extractor (network and HTML parsing),
      and whether the export file can be written. *)

From Stdlib Require Import String Ascii DecimalString.
From Stdlib.Strings Require Import Byte.
From Stdlib Require Import List NArith ZArith Bool Lia.
From Stdlib Require Import DecimalPos DecimalZ.
Import ListNotations.

Local Open Scope N_scope.
Local Open Scope list_scope.

(** ** Text *)

(** A Python string: its code points in order. *)
Definition str : Type := list N.

(** A literal of the source.  Only ASCII literals are written this way. *)
Fixpoint lit (s : string) : str :=
  match s with
  | EmptyString => []
  | String a rest => N_of_ascii a :: lit rest
  end.

(** [str(n)] for a Python integer: decimal digits, a leading minus sign for
    negative numbers. *)
Definition str_of_int (z : Z) : str :=
  lit (NilZero.string_of_int (Z.to_int z)).

(** CPython's default limit on the digits of an integer turned into text
    ([sys.int_info.default_max_str_digits], since Python 3.11). *)
Definition int_max_str_digits : nat := 4300.

(** [str(n)] raises a [ValueError] when [n] has more digits than the limit,
    the sign not counted: the message of the exception, or [None] when
    [str(n)] returns. *)
Definition str_of_int_raises (z : Z) : option str :=
  if (int_max_str_digits <? length (str_of_int (Z.abs z)))%nat
  then Some (lit "Exceeds the limit (4300 digits) for integer string conversion; use sys.set_int_max_str_digits() to increase the limit")
  else None.

(** [len(s)] of a string: the number of its code points. *)
Definition len (s : str) : Z := Z.of_nat (length s).


(** [s.startswith(prefix)]. *)
Fixpoint startswith (prefix s : str) : bool :=
  match prefix, s with
  | [], _ => true
  | x :: p', y :: s' => (x =? y) && startswith p' s'
  | _ :: _, [] => false
  end.

(** [needle in hay] for strings: substring search. *)
Fixpoint contains (needle hay : str) : bool :=
  startswith needle hay ||
  match hay with
  | [] => false
  | _ :: hay' => contains needle hay'
  end.

(** Truthiness of a string ([if s:]): non-empty. *)
Definition truthy (s : str) : bool :=
  match s with [] => false | _ :: _ => true end.

(** Truthiness of an optional string: neither [None] nor empty. *)
Definition truthy_opt (o : option str) : bool :=
  match o with None => false | Some s => truthy s end.

(** An optional string inside an f-string: [None] prints as [None]. *)
Definition format_opt (o : option str) : str :=
  match o with None => lit "None" | Some s => s end.

(** [a == b] on strings. *)
Fixpoint str_eqb (a b : str) : bool :=
  match a, b with
  | [], [] => true
  | x :: a', y :: b' => (x =? y) && str_eqb a' b'
  | _, _ => false
  end.

(** The characters that [str.strip()] removes: Python's Unicode whitespace. *)
Definition isspace (c : N) : bool :=
  existsb (N.eqb c)
    [9; 10; 11; 12; 13; 28; 29; 30; 31; 32; 133; 160; 5760;
     8192; 8193; 8194; 8195; 8196; 8197; 8198; 8199; 8200; 8201; 8202;
     8232; 8233; 8239; 8287; 12288].

(** [s.lstrip()]. *)
Fixpoint lstrip (s : str) : str :=
  match s with
  | [] => []
  | c :: rest => if isspace c then lstrip rest else s
  end.

(** [s.strip()]: whitespace removed at both ends. *)
Definition strip (s : str) : str := rev (lstrip (rev (lstrip s))).

(** ** UTF-8 *)

Module Utf8.

Definition byte_of (n : N) : byte :=
  match Byte.of_N (n mod 256) with
  | Some b => b
  | None => x00
  end.

(** The bytes of one code point. *)
Definition encode_char (c : N) : list byte :=
  if c <? 128 then [byte_of c]
  else if c <? 2048 then
    [byte_of (192 + c / 64); byte_of (128 + c mod 64)]
  else if c <? 65536 then
    [byte_of (224 + c / 4096); byte_of (128 + (c / 64) mod 64);
     byte_of (128 + c mod 64)]
  else
    [byte_of (240 + c / 262144); byte_of (128 + (c / 4096) mod 64);
     byte_of (128 + (c / 64) mod 64); byte_of (128 + c mod 64)].

(** [s.encode('utf-8')], where it returns. *)
Definition encode (s : str) : list byte := flat_map encode_char s.

(** A surrogate code point, U+D800 to U+DFFF. *)
Definition is_surrogate (c : N) : bool := (55296 <=? c) && (c <=? 57343).

Definition hex_digit (n : N) : N := if n <? 10 then 48 + n else 87 + n.

(** [%04x] of a code point below 65536. *)
Definition hex4 (c : N) : str :=
  [hex_digit (c / 4096); hex_digit ((c / 256) mod 16);
   hex_digit ((c / 16) mod 16); hex_digit (c mod 16)].

(** The number of surrogates at the head of a string. *)
Fixpoint surrogate_run (s : str) : nat :=
  match s with
  | c :: rest => if is_surrogate c then S (surrogate_run rest) else O
  | [] => O
  end.

(** The codec scans from position [pos] and stops at the first surrogate;
    the error names that character, or the positions of the whole run of
    surrogates when more follow it. *)
Fixpoint encode_raises_from (pos : nat) (s : str) : option str :=
  match s with
  | [] => None
  | c :: rest =>
      if is_surrogate c then
        Some (match surrogate_run rest with
              | O =>
                  lit "'utf-8' codec can't encode character '\u" ++ hex4 c
                  ++ lit "' in position " ++ str_of_int (Z.of_nat pos)
                  ++ lit ": surrogates not allowed"
              | S more =>
                  lit "'utf-8' codec can't encode characters in position "
                  ++ str_of_int (Z.of_nat pos) ++ lit "-"
                  ++ str_of_int (Z.of_nat (pos + S more))
                  ++ lit ": surrogates not allowed"
              end)
      else encode_raises_from (S pos) rest
  end.

(** [s.encode('utf-8')] raises a [UnicodeEncodeError] when [s] holds a
    surrogate: [str(e)] of the exception, or [None] when the call returns. *)
Definition encode_raises (s : str) : option str := encode_raises_from 0 s.

(** [bs.decode('utf-8')] where [bs] is known to be ASCII (base64 output). *)
Definition decode_ascii (bs : list byte) : str := map Byte.to_N bs.

End Utf8.

(** ** SHA-256 (FIPS 180-4), as [hashlib.sha256(data).digest()] *)

Module Sha256.

Definition wrap (x : N) : N := x mod 4294967296.
Definition add32 (x y : N) : N := wrap (x + y).
Definition rotr (n x : N) : N := N.lor (N.shiftr x n) (wrap (N.shiftl x (32 - n))).
Definition not32 (x : N) : N := N.lxor x 4294967295.

Definition Ch (x y z : N) : N := N.lxor (N.land x y) (N.land (not32 x) z).
Definition Maj (x y z : N) : N :=
  N.lxor (N.lxor (N.land x y) (N.land x z)) (N.land y z).
Definition bsig0 (x : N) : N := N.lxor (N.lxor (rotr 2 x) (rotr 13 x)) (rotr 22 x).
Definition bsig1 (x : N) : N := N.lxor (N.lxor (rotr 6 x) (rotr 11 x)) (rotr 25 x).
Definition ssig0 (x : N) : N := N.lxor (N.lxor (rotr 7 x) (rotr 18 x)) (N.shiftr x 3).
Definition ssig1 (x : N) : N := N.lxor (N.lxor (rotr 17 x) (rotr 19 x)) (N.shiftr x 10).

(** Round constants: the fractional parts of the cube roots of the first
    sixty-four primes. *)
Definition round_constants : list N :=
  [1116352408; 1899447441; 3049323471; 3921009573; 961987163; 1508970993;
   2453635748; 2870763221; 3624381080; 310598401; 607225278; 1426881987;
   1925078388; 2162078206; 2614888103; 3248222580; 3835390401; 4022224774;
   264347078; 604807628; 770255983; 1249150122; 1555081692; 1996064986;
   2554220882; 2821834349; 2952996808; 3210313671; 3336571891; 3584528711;
   113926993; 338241895; 666307205; 773529912; 1294757372; 1396182291;
   1695183700; 1986661051; 2177026350; 2456956037; 2730485921; 2820302411;
   3259730800; 3345764771; 3516065817; 3600352804; 4094571909; 275423344;
   430227734; 506948616; 659060556; 883997877; 958139571; 1322822218;
   1537002063; 1747873779; 1955562222; 2024104815; 2227730452; 2361852424;
   2428436474; 2756734187; 3204031479; 3329325298].

Record regs : Type := Regs { ra : N; rb : N; rc : N; rd : N; re : N; rf : N; rg : N; rh : N }.

(** Initial hash value: from the square roots of the first eight primes. *)
Definition initial : regs :=
  Regs 1779033703 3144134277 1013904242 2773480762
       1359893119 2600822924 528734635 1541459225.

(** Big-endian bytes of a number, [k] of them. *)
Fixpoint be_bytes (k : nat) (x : N) : list N :=
  match k with
  | O => []
  | S k' => be_bytes k' (x / 256) ++ [x mod 256]
  end.

(** Padding: a one bit, zeros up to 56 modulo 64 bytes, then the message
    length in bits on eight bytes. *)
Definition pad (msg : list N) : list N :=
  let l := length msg in
  let zeros := ((64 - ((l + 9) mod 64)) mod 64)%nat in
  msg ++ [128] ++ repeat 0 zeros ++ be_bytes 8 (8 * N.of_nat l).

(** The sixteen message words of a block. *)
Fixpoint words (k : nat) (bs : list N) : list N :=
  match k, bs with
  | S k', b0 :: b1 :: b2 :: b3 :: rest =>
      (((b0 * 256 + b1) * 256 + b2) * 256 + b3) :: words k' rest
  | _, _ => []
  end.

(** The message schedule, newest word first: [rev_w] holds W(t-1), W(t-2), ... *)
Fixpoint extend (k : nat) (rev_w : list N) : list N :=
  match k with
  | O => rev_w
  | S k' =>
      let w := add32 (add32 (ssig1 (nth 1 rev_w 0)) (nth 6 rev_w 0))
                     (add32 (ssig0 (nth 14 rev_w 0)) (nth 15 rev_w 0)) in
      extend k' (w :: rev_w)
  end.

Definition schedule (block : list N) : list N :=
  rev (extend 48 (rev (words 16 block))).

Definition round (r : regs) (kw : N * N) : regs :=
  let t1 := add32 (add32 (add32 (rh r) (bsig1 (re r))) (Ch (re r) (rf r) (rg r)))
                  (add32 (fst kw) (snd kw)) in
  let t2 := add32 (bsig0 (ra r)) (Maj (ra r) (rb r) (rc r)) in
  Regs (add32 t1 t2) (ra r) (rb r) (rc r) (add32 (rd r) t1) (re r) (rf r) (rg r).

Definition compress (h : regs) (block : list N) : regs :=
  let r := fold_left round (combine round_constants (schedule block)) h in
  Regs (add32 (ra h) (ra r)) (add32 (rb h) (rb r)) (add32 (rc h) (rc r))
       (add32 (rd h) (rd r)) (add32 (re h) (re r)) (add32 (rf h) (rf r))
       (add32 (rg h) (rg r)) (add32 (rh h) (rh r)).

Fixpoint blocks (n : nat) (h : regs) (bs : list N) : regs :=
  match n with
  | O => h
  | S n' => blocks n' (compress h (firstn 64 bs)) (skipn 64 bs)
  end.

Definition digest (data : list byte) : list byte :=
  let padded := pad (map Byte.to_N data) in
  let h := blocks (length padded / 64) initial padded in
  map Utf8.byte_of
      (flat_map (be_bytes 4) [ra h; rb h; rc h; rd h; re h; rf h; rg h; rh h]).

End Sha256.

(** ** Base64, as [base64.b64encode] *)

Module Base64.

(** The standard alphabet: A-Z, a-z, 0-9, plus, slash. *)
Definition sextet (n : N) : byte :=
  Utf8.byte_of
    (if n <? 26 then 65 + n
     else if n <? 52 then 97 + (n - 26)
     else if n <? 62 then 48 + (n - 52)
     else if n =? 62 then 43
     else 47).

Definition pad_char : byte := Utf8.byte_of 61.

Fixpoint b64encode_N (bs : list N) : list byte :=
  match bs with
  | [] => []
  | [a] =>
      [sextet (a / 4); sextet ((a mod 4) * 16); pad_char; pad_char]
  | [a; b] =>
      [sextet (a / 4); sextet ((a mod 4) * 16 + b / 16);
       sextet ((b mod 16) * 4); pad_char]
  | a :: b :: c :: rest =>
      sextet (a / 4) :: sextet ((a mod 4) * 16 + b / 16)
        :: sextet ((b mod 16) * 4 + c / 64) :: sextet (c mod 64)
        :: b64encode_N rest
  end.

Definition b64encode (bs : list byte) : list byte :=
  b64encode_N (map Byte.to_N bs).

End Base64.

(** ** Regular expressions, as [re.match]

    The pattern syntax covered: literal characters, [.], a backslash before
    an ASCII character that is neither a letter nor a digit, groups in
    parentheses, alternation, and the greedy postfix operators star, plus
    and question mark.  [compile] answers [None] on anything else: patterns
    that [re.compile] rejects with [re.error] (an unbalanced parenthesis, a
    quantifier with nothing to repeat, a doubled quantifier), and syntax
    that is not modelled (character classes, anchors, counted repetition,
    lazy quantifiers, extension groups, letter and digit escapes). *)

Module Re.

Inductive regex : Type :=
| Empty                         (* matches no string *)
| Eps                           (* matches the empty string *)
| Chr (c : N)                   (* one given character *)
| Dot                           (* any character but a newline *)
| Seq (r1 r2 : regex)
| Alt (r1 r2 : regex)
| Star (r : regex).

Fixpoint nullable (r : regex) : bool :=
  match r with
  | Empty => false
  | Eps => true
  | Chr _ => false
  | Dot => false
  | Seq r1 r2 => nullable r1 && nullable r2
  | Alt r1 r2 => nullable r1 || nullable r2
  | Star _ => true
  end.

(** What remains to be matched after reading [c]. *)
Fixpoint deriv (c : N) (r : regex) : regex :=
  match r with
  | Empty => Empty
  | Eps => Empty
  | Chr d => if c =? d then Eps else Empty
  | Dot => if c =? 10 then Empty else Eps
  | Seq r1 r2 =>
      if nullable r1 then Alt (Seq (deriv c r1) r2) (deriv c r2)
      else Seq (deriv c r1) r2
  | Alt r1 r2 => Alt (deriv c r1) (deriv c r2)
  | Star r1 => Seq (deriv c r1) (Star r1)
  end.

(** A match that starts at the first character of [s] exists: some prefix
    of [s] is in the language of [r]. *)
Fixpoint matches_at_start (r : regex) (s : str) : bool :=
  nullable r ||
  match s with
  | [] => false
  | c :: s' => matches_at_start (deriv c r) s'
  end.

(** The strings of a regular expression. *)
Inductive denotes : regex -> str -> Prop :=
| denotes_eps : denotes Eps []
| denotes_chr (c : N) : denotes (Chr c) [c]
| denotes_dot (c : N) : c <> 10 -> denotes Dot [c]
| denotes_seq (r1 r2 : regex) (s1 s2 : str) :
    denotes r1 s1 -> denotes r2 s2 -> denotes (Seq r1 r2) (s1 ++ s2)
| denotes_alt_l (r1 r2 : regex) (s : str) : denotes r1 s -> denotes (Alt r1 r2) s
| denotes_alt_r (r1 r2 : regex) (s : str) : denotes r2 s -> denotes (Alt r1 r2) s
| denotes_star_nil (r : regex) : denotes (Star r) []
| denotes_star_app (r : regex) (s1 s2 : str) :
    denotes r s1 -> denotes (Star r) s2 -> denotes (Star r) (s1 ++ s2).

(** One nesting level of the pattern being read: the alternatives already
    closed and the items of the branch being read, both newest first. *)
Record frame : Type := Frame { alts : list regex; items : list regex }.

Record parser : Type := Parser {
  outer : list frame;       (* the enclosing groups *)
  cur : frame;
  quantifiable : bool;      (* the newest item may take a postfix operator *)
  escaped : bool            (* the previous character was a backslash *)
}.

Definition seq_of (newest_first : list regex) : regex :=
  fold_left (fun acc r => match acc with Eps => r | _ => Seq r acc end)
            newest_first Eps.

Definition close (f : frame) : regex :=
  fold_left (fun acc r => Alt r acc) (alts f) (seq_of (items f)).

Definition push_item (p : parser) (r : regex) : parser :=
  Parser (outer p) (Frame (alts (cur p)) (r :: items (cur p))) true false.

Definition quantify (p : parser) (q : regex -> regex) : option parser :=
  match quantifiable p, items (cur p) with
  | true, r :: rest =>
      Some (Parser (outer p) (Frame (alts (cur p)) (q r :: rest)) false false)
  | _, _ => None
  end.

Definition is_alnum (c : N) : bool :=
  ((48 <=? c) && (c <=? 57)) || ((65 <=? c) && (c <=? 90))
  || ((97 <=? c) && (c <=? 122)).

Definition step (p : parser) (c : N) : option parser :=
  if escaped p then
    if (c <? 128) && negb (is_alnum c) then Some (push_item p (Chr c)) else None
  else if c =? 92 then                                   (* backslash *)
    Some (Parser (outer p) (cur p) (quantifiable p) true)
  else if c =? 40 then                                   (* ( *)
    Some (Parser (cur p :: outer p) (Frame [] []) false false)
  else if c =? 41 then                                   (* ) *)
    match outer p with
    | [] => None
    | f :: rest =>
        Some (Parser rest (Frame (alts f) (close (cur p) :: items f)) true false)
    end
  else if c =? 124 then                                  (* | *)
    Some (Parser (outer p)
                 (Frame (seq_of (items (cur p)) :: alts (cur p)) []) false false)
  else if c =? 42 then quantify p Star                   (* * *)
  else if c =? 43 then quantify p (fun r => Seq r (Star r))   (* + *)
  else if c =? 63 then quantify p (fun r => Alt r Eps)   (* ? *)
  else if c =? 46 then Some (push_item p Dot)            (* . *)
  else if (c =? 94) || (c =? 36) || (c =? 91) || (c =? 93)
          || (c =? 123) || (c =? 125) then None          (* ^ $ [ ] { } *)
  else Some (push_item p (Chr c)).

Fixpoint run (p : parser) (pattern : str) : option parser :=
  match pattern with
  | [] => Some p
  | c :: rest =>
      match step p c with
      | Some p' => run p' rest
      | None => None
      end
  end.

Definition compile (pattern : str) : option regex :=
  match run (Parser [] (Frame [] []) false false) pattern with
  | Some (Parser [] f _ false) => Some (close f)
  | _ => None
  end.

(** [re.match(pattern, s)] as a truth value: [Some true] for a match
    object, [Some false] for [None]. *)
Definition re_match (pattern s : str) : option bool :=
  match compile pattern with
  | Some r => Some (matches_at_start r s)
  | None => None
  end.

End Re.

(** ** The canonical encoder: class [SExpression] *)

Module SExpression.

(** [create_string(s)]: the length-prefixed atom; [None] and the empty
    string give the empty output. *)
Definition create_string (s : option str) : str :=
  match s with
  | None => []
  | Some [] => []
  | Some s => str_of_int (len s) ++ lit ":" ++ s
  end.

(** [create_object(name, content)]: the named group; empty content gives
    the empty output. *)
Definition create_object (name : str) (content : str) : str :=
  if negb (truthy content) then []
  else
    let name_expr := create_string (Some name) in
    lit "(" ++ name_expr ++ content ++ lit ")".

(** [hash_sexp(sexp)]: base64 of the SHA-256 digest of the UTF-8 bytes. *)
Definition hash_sexp (sexp : str) : str :=
  let hash_obj := Sha256.digest (Utf8.encode sexp) in
  Utf8.decode_ascii (Base64.b64encode hash_obj).

End SExpression.

Import SExpression.

(** ** The content model *)

Module Link.
Record t : Type := mk { url : str }.

Definition to_sexp (self : t) : str :=
  let url_expr := create_object (lit "url") (create_string (Some (url self))) in
  create_object (lit "link") url_expr.
End Link.

Module Paragraph.
(** An item of [content: List[Union[str, Link]]]. *)
Inductive item : Type :=
| Text (s : str)
| Ref (l : Link.t).

Record t : Type := mk { content : list item }.

Definition to_sexp (self : t) : str :=
  let content_expr :=
    fold_left
      (fun content_expr item =>
         match item with
         | Text s => content_expr ++ create_string (Some s)
         | Ref l => content_expr ++ Link.to_sexp l
         end)
      (content self) [] in
  create_object (lit "paragraph") content_expr.
End Paragraph.

Module Subheading.
Record t : Type := mk { text : str }.

Definition to_sexp (self : t) : str :=
  create_object (lit "subheading") (create_string (Some (text self))).
End Subheading.

Module Image.
Record t : Type := mk { url : str; caption : str }.

(** [Image(url)]: the caption is left at its default. *)
Definition without_caption (url : str) : t := mk url [].

Definition to_sexp (self : t) : str :=
  let url_expr := create_object (lit "url") (create_string (Some (url self))) in
  let caption_expr :=
    create_object (lit "caption") (create_string (Some (caption self))) in
  create_object (lit "image") (url_expr ++ caption_expr).
End Image.

Module ArticleBody.
(** An element of [elements: List[Union[Paragraph, Subheading, Image]]]. *)
Inductive element : Type :=
| P (p : Paragraph.t)
| H (h : Subheading.t)
| I (i : Image.t).

Definition element_to_sexp (e : element) : str :=
  match e with
  | P p => Paragraph.to_sexp p
  | H h => Subheading.to_sexp h
  | I i => Image.to_sexp i
  end.

Record t : Type := mk { elements : list element }.

Definition to_sexp (self : t) : str :=
  let content_expr :=
    fold_left (fun content_expr element => content_expr ++ element_to_sexp element)
              (elements self) [] in
  create_object (lit "body") content_expr.
End ArticleBody.

Module Article.
Record t : Type := mk {
  type : str;
  headline : str;
  date : Z;
  author : str;
  body : ArticleBody.t
}.

(** [Article(headline, date, author, body)]: the constructor fixes the type. *)
Definition new (headline : str) (date : Z) (author : str) (body : ArticleBody.t) : t :=
  mk (lit "article") headline date author body.

Definition to_sexp (self : t) : str :=
  let headline_expr :=
    create_object (lit "headline") (create_string (Some (headline self))) in
  let date_expr :=
    create_object (lit "date") (create_string (Some (str_of_int (date self)))) in
  let author_expr :=
    create_object (lit "author") (create_string (Some (author self))) in
  let body_expr := ArticleBody.to_sexp (body self) in
  let content := headline_expr ++ date_expr ++ author_expr ++ body_expr in
  create_object (lit "article") content.

(** [ContentObject.hash]. *)
Definition hash (self : t) : str := hash_sexp (to_sexp self).

(** [self.hash()] raises: in [to_sexp] when [str(self.date)] does, and
    otherwise in [hash_sexp] when the canonical form cannot be encoded.
    The message of the exception, or [None] when the call returns. *)
Definition hash_raises (self : t) : option str :=
  match str_of_int_raises (date self) with
  | Some message => Some message
  | None => Utf8.encode_raises (to_sexp self)
  end.
End Article.

(** ** The three record kinds *)

Module Rule.
Record t : Type := mk {
  source : str;
  timestamp : Z;
  pattern : str;
  script_hash : str;
  object_type : str;
  script : option str
}.

Definition to_sexp (self : t) : str :=
  let source_expr :=
    create_object (lit "source") (lit "|" ++ source self ++ lit "|") in
  let timestamp_expr :=
    create_object (lit "timestamp") (create_string (Some (str_of_int (timestamp self)))) in
  let pattern_expr :=
    create_object (lit "pattern") (create_string (Some (pattern self))) in
  let script_hash_expr :=
    create_object (lit "script-hash") (lit "|" ++ script_hash self ++ lit "|") in
  let object_type_expr :=
    create_object (lit "object-type") (create_string (Some (object_type self))) in
  let content :=
    source_expr ++ timestamp_expr ++ pattern_expr ++ script_hash_expr
      ++ object_type_expr in
  let content :=
    if truthy_opt (script self) then
      let script_expr := create_object (lit "script") (create_string (script self)) in
      content ++ script_expr
    else content in
  create_object (lit "rule") content.
End Rule.

Module Inference.
Record t : Type := mk {
  source : str;
  timestamp : Z;
  url : str;
  script_hash : str;
  object_type : option str;
  object_hash : option str;
  error : option str;
  script : option str;
  object : option str
}.

(** The record as [process_url] first builds it: the optional fields at
    their default [None]. *)
Definition new (source : str) (timestamp : Z) (url script_hash : str) : t :=
  mk source timestamp url script_hash None None None None None.

Definition set_object_type (self : t) (v : option str) : t :=
  mk (source self) (timestamp self) (url self) (script_hash self)
     v (object_hash self) (error self) (script self) (object self).

Definition set_object_hash (self : t) (v : option str) : t :=
  mk (source self) (timestamp self) (url self) (script_hash self)
     (object_type self) v (error self) (script self) (object self).

Definition set_error (self : t) (v : option str) : t :=
  mk (source self) (timestamp self) (url self) (script_hash self)
     (object_type self) (object_hash self) v (script self) (object self).

Definition to_sexp (self : t) : str :=
  let source_expr :=
    create_object (lit "source") (lit "|" ++ source self ++ lit "|") in
  let timestamp_expr :=
    create_object (lit "timestamp") (create_string (Some (str_of_int (timestamp self)))) in
  let url_expr := create_object (lit "url") (create_string (Some (url self))) in
  let script_hash_expr :=
    create_object (lit "script-hash") (lit "|" ++ script_hash self ++ lit "|") in
  let content := source_expr ++ timestamp_expr ++ url_expr ++ script_hash_expr in
  let content :=
    if truthy_opt (error self) then
      let error_expr := create_object (lit "error") (create_string (error self)) in
      content ++ error_expr
    else
      let object_type_expr :=
        create_object (lit "object-type") (create_string (object_type self)) in
      let object_hash_expr :=
        create_object (lit "object-hash")
                      (lit "|" ++ format_opt (object_hash self) ++ lit "|") in
      content ++ object_type_expr ++ object_hash_expr in
  let content :=
    if truthy_opt (script self) then
      let script_expr := create_object (lit "script") (create_string (script self)) in
      content ++ script_expr
    else content in
  let content :=
    match object self with
    | Some raw =>
        if truthy raw then
          let object_expr := create_object (lit "object") raw in
          content ++ object_expr
        else content
    | None => content
    end in
  create_object (lit "inference") content.
End Inference.

Module Perception.
Record t : Type := mk {
  source : str;
  timestamp : Z;
  url : str;
  object_type : str;
  object_hash : str;
  valid : bool
}.

Definition to_sexp (self : t) : str :=
  let source_expr :=
    create_object (lit "source") (lit "|" ++ source self ++ lit "|") in
  let timestamp_expr :=
    create_object (lit "timestamp") (create_string (Some (str_of_int (timestamp self)))) in
  let url_expr := create_object (lit "url") (create_string (Some (url self))) in
  let object_type_expr :=
    create_object (lit "object-type") (create_string (Some (object_type self))) in
  let object_hash_expr :=
    create_object (lit "object-hash") (lit "|" ++ object_hash self ++ lit "|") in
  let valid_expr :=
    create_object (lit "valid")
                  (create_string (Some (if valid self then lit "1" else lit "0"))) in
  let content :=
    source_expr ++ timestamp_expr ++ url_expr ++ object_type_expr
      ++ object_hash_expr ++ valid_expr in
  create_object (lit "perception") content.
End Perception.

(** ** class [BBCArticleExtractor]: what it does with the parsed page

    The page is fetched and parsed by libraries; the methods below are
    given what the parse tree answers to the queries they make. *)

Module BBCArticleExtractor.

(** A child of an element, as [_extract_text_with_links] looks at it: a
    string of the tree (its [name] is [None]), or a tag with its name, its
    [href] attribute if it has one, and its [text]. *)
Inductive child : Type :=
| NavigableString (s : str)
| Tag (name : str) (href : option str) (text : str).

(** An element whose text is extracted: its [contents] and its [string]. *)
Record element : Type := Element {
  contents : list child;
  string : option str
}.

(** The address of a link, made absolute. *)
Definition absolute (url : str) : str :=
  if negb (startswith (lit "http") url) then
    if startswith (lit "/") url then lit "https://www.bbc.com" ++ url
    else lit "https://www.bbc.com/" ++ url
  else url.

(** One turn of the loop of [_extract_text_with_links] over the children:
    the state is the content of the paragraph so far and [current_text]. *)
Definition text_step (state : list Paragraph.item * str) (c : child)
    : list Paragraph.item * str :=
  let (content, current_text) := state in
  match c with
  | Tag name href text =>
      let other :=
        if negb (str_eqb name (lit "br")) then
          (content, if truthy text then current_text ++ text else current_text)
        else (content, current_text) in
      match href with
      | Some url =>
          if str_eqb name (lit "a") && truthy url then
            let (content, current_text) :=
              if truthy current_text
              then (content ++ [Paragraph.Text current_text], [])
              else (content, current_text) in
            let content := content ++ [Paragraph.Ref (Link.mk (absolute url))] in
            (content, if truthy text then current_text ++ text else current_text)
          else other
      | None => other
      end
  | NavigableString s => (content, current_text ++ s)
  end.

(** [_extract_text_with_links(element)]. *)
Definition _extract_text_with_links (e : element) : Paragraph.t :=
  match contents e with
  | [] =>
      match string e with
      | Some s =>
          if truthy s && truthy (strip s)
          then Paragraph.mk [Paragraph.Text (strip s)]
          else Paragraph.mk []
      | None => Paragraph.mk []
      end
  | _ :: _ =>
      let (content, current_text) := fold_left text_step (contents e) ([], []) in
      if truthy current_text
      then Paragraph.mk (content ++ [Paragraph.Text current_text])
      else Paragraph.mk content
  end.

(** A [figure] element as [_extract_image] looks at it: the attributes
    [src] and [data-src] of its first [img], if it has one, and the text
    of its first [figcaption], if it has one. *)
Record figure : Type := Figure {
  img : option (option str * option str);
  figcaption : option str
}.

(** [attrs.get(key, default)] on an attribute that is present or not. *)
Definition get (value : option str) (default : str) : str :=
  match value with Some v => v | None => default end.

(** [_extract_image(figure_element)]. *)
Definition _extract_image (f : figure) : option Image.t :=
  match img f with
  | None => None
  | Some (src, data_src) =>
      let url := get src [] in
      let url := if negb (truthy url) then get data_src [] else url in
      if negb (truthy url) then None
      else
        let caption :=
          match figcaption f with
          | Some text => strip text
          | None => []
          end in
        Some (Image.mk url caption)
  end.

(** An element that [find_all(['p', 'h2', 'figure'])] hands to the loop of
    [extract]: its name and text, and what the two helpers see of it. *)
Record block : Type := Block {
  name : str;
  text : str;
  as_element : element;
  as_figure : figure
}.

(** One turn of the loop of [extract] over the blocks of the main content. *)
Definition body_step (elements : list ArticleBody.element) (b : block)
    : list ArticleBody.element :=
  if str_eqb (name b) (lit "p") && truthy (strip (text b)) then
    let paragraph := _extract_text_with_links (as_element b) in
    match Paragraph.content paragraph with
    | _ :: _ => elements ++ [ArticleBody.P paragraph]
    | [] => elements
    end
  else if str_eqb (name b) (lit "h2") && truthy (strip (text b)) then
    elements ++ [ArticleBody.H (Subheading.mk (strip (text b)))]
  else if str_eqb (name b) (lit "figure") then
    match _extract_image (as_figure b) with
    | Some image => elements ++ [ArticleBody.I image]
    | None => elements
    end
  else elements.

(** The body that [extract] builds from the blocks of the main content. *)
Definition extract_body (blocks : list block) : ArticleBody.t :=
  ArticleBody.mk (fold_left body_step blocks []).

End BBCArticleExtractor.

(** ** The world around the ledger *)

(** Severity of a message handed to the [pcsi] logger. *)
Inductive level : Type := INFO | WARNING | ERROR.

(** What [extractor.extract(url)] does: it returns an article, or raises an
    exception [e] (any subclass of [Exception]) whose [str(e)] is the
    message.  Interrupts, which are not [Exception]s, are not modelled. *)
Inductive extracted : Type :=
| Returned (article : Article.t)
| Raised (message : str).

(** What one call of [process_url] reads from outside: the clock when a
    default rule is registered, the clock when the inference is built, and
    the extractor. *)
Record env : Type := Env {
  rule_time : Z;
  inference_time : Z;
  extract : str -> extracted
}.


(** ** class [PCSISystem] *)

Module PCSISystem.

(** The attributes of the object.  [extractors] is the constant table with
    the one entry [bbc_article]; its extractor is [extract] of [env]. *)
Record t : Type := mk {
  source_id : str;
  rules : list Rule.t;
  inferences : list Inference.t;
  perceptions : list Perception.t
}.

(** Everything a method can change: the object, the log, the files. *)
Record world : Type := World {
  self : t;
  log : list (level * str);
  files : list (str * str)          (* path and content, newest first *)
}.

(** A method: it runs from a world and hands back its result with the new
    world.  [None]: the model does not follow the call further, because a
    rule pattern met on the way is outside the modelled pattern syntax
    ([unmodelled]), or because an exception leaves the code that is
    modelled ([escapes]). *)
Definition M (A : Type) : Type := world -> option (A * world).

Definition ret {A : Type} (a : A) : M A := fun w => Some (a, w).

Definition bind {A B : Type} (m : M A) (k : A -> M B) : M B :=
  fun w => match m w with
           | Some (a, w') => k a w'
           | None => None
           end.

Definition unmodelled {A : Type} : M A := fun _ => None.


Notation "x <- m ;; k" := (bind m (fun x => k))
  (at level 61, m at next level, right associativity).
Notation "m ;;; k" := (bind m (fun _ => k))
  (at level 61, right associativity).

Definition read : M t := fun w => Some (self w, w).

(** The world after one more line in the log. *)
Definition logged (l : level) (message : str) (w : world) : world :=
  World (self w) (log w ++ [(l, message)]) (files w).

Definition logger (l : level) (message : str) : M unit :=
  fun w => Some (tt, logged l message w).

Definition rules_append (rule : Rule.t) : M unit :=
  fun w =>
    let s := self w in
    Some (tt, World (mk (source_id s) (rules s ++ [rule]) (inferences s) (perceptions s))
                    (log w) (files w)).

Definition inferences_append (inference : Inference.t) : M unit :=
  fun w =>
    let s := self w in
    Some (tt, World (mk (source_id s) (rules s) (inferences s ++ [inference]) (perceptions s))
                    (log w) (files w)).

Definition perceptions_append (perception : Perception.t) : M unit :=
  fun w =>
    let s := self w in
    Some (tt, World (mk (source_id s) (rules s) (inferences s) (perceptions s ++ [perception]))
                    (log w) (files w)).


(** [add_rule(pattern, script_hash, object_type, script)], at clock [now]. *)
Definition add_rule (now : Z) (pattern script_hash object_type : str)
    (script : option str) : M Rule.t :=
  s <- read ;;
  let rule := Rule.mk (source_id s) now pattern script_hash object_type script in
  rules_append rule ;;;
  logger INFO (lit "Added rule for pattern: " ++ pattern) ;;;
  ret rule.

(** The loop of [find_matching_rule] over the rules still to be tried. *)
Fixpoint first_match (rules : list Rule.t) (url : str) : M (option Rule.t) :=
  match rules with
  | [] =>
      logger INFO (lit "No matching rule found for " ++ url) ;;;
      ret None
  | rule :: rest =>
      match Re.re_match (Rule.pattern rule) url with
      | None => unmodelled
      | Some true =>
          logger INFO (lit "Found matching rule for " ++ url) ;;;
          ret (Some rule)
      | Some false => first_match rest url
      end
  end.

(** [find_matching_rule(url)]. *)
Definition find_matching_rule (url : str) : M (option Rule.t) :=
  s <- read ;;
  first_match (rules s) url.

(** The test a URL without a rule must pass to get the default rule. *)
Definition eligible (url : str) : bool :=
  contains (lit "bbc.com") url
  && (contains (lit "/news/") url || contains (lit "/sport/") url).

Definition default_pattern : str := lit "https?://(www\.)?bbc\.com/.*".
Definition placeholder_hash : str := lit "CY7Iwrrw5i7MyjV7Zqdwf2Tj0Hb3iCsJF4Sv6jcrUyw=".

(** The [except Exception] block of [process_url]: [inference] is the
    record as the [try] block left it, [message] is [str(e)]. *)
Definition except_Exception (inference : Inference.t) (message : str)
    : M (option Article.t * option Inference.t) :=
  logger ERROR (lit "Error extracting content: " ++ message) ;;;
  let inference := Inference.set_error inference (Some message) in
  inferences_append inference ;;;
  ret (None, Some inference).

(** The second half of [process_url], from the construction of the
    inference on: the rule is resolved.  The [try] block holds the call of
    the extractor and the hashing of the document, which comes after the
    object type is set. *)
Definition apply_rule (e : env) (url : str) (rule : Rule.t)
    : M (option Article.t * option Inference.t) :=
  s <- read ;;
  let inference :=
    Inference.new (source_id s) (inference_time e) url (Rule.script_hash rule) in
  match extract e url with
  | Returned content_object =>
      let inference := Inference.set_object_type inference (Some (Rule.object_type rule)) in
      match Article.hash_raises content_object with
      | None =>
          let inference :=
            Inference.set_object_hash inference (Some (Article.hash content_object)) in
          inferences_append inference ;;;
          ret (Some content_object, Some inference)
      | Some message => except_Exception inference message
      end
  | Raised message => except_Exception inference message
  end.

(** [process_url(url)]. *)
Definition process_url (e : env) (url : str)
    : M (option Article.t * option Inference.t) :=
  found <- find_matching_rule url ;;
  match found with
  | Some rule => apply_rule e url rule
  | None =>
      if eligible url then
        rule <- add_rule (rule_time e) default_pattern placeholder_hash
                         (lit "article") None ;;
        apply_rule e url rule
      else
        logger WARNING (lit "No rule available for URL: " ++ url) ;;;
        ret (None, None)
  end.

(** [add_perception(url, object_type, object_hash, valid)], at clock [now]. *)
Definition add_perception (now : Z) (url object_type object_hash : str)
    (valid : bool) : M Perception.t :=
  s <- read ;;
  let perception := Perception.mk (source_id s) now url object_type object_hash valid in
  perceptions_append perception ;;;
  logger INFO (lit "Added perception for " ++ url ++ lit ": valid="
               ++ (if valid then lit "True" else lit "False")) ;;;
  ret perception.



(** [PCSISystem(source_id)]: the new object, in a world with the log and
    the files given.  [clock_text] is [str(time.time())], read when no
    source identifier is supplied. *)
Definition init (source_id : option str) (clock_text : str)
    (log : list (level * str)) (files : list (str * str)) : world :=
  let source_id :=
    if truthy_opt source_id then format_opt source_id
    else Utf8.decode_ascii (Base64.b64encode (Sha256.digest (Utf8.encode clock_text))) in
  logged INFO
    (lit "PCSI System initialized with source ID: " ++ firstn 8 source_id ++ lit "...")
    (World (mk source_id [] [] []) log files).

End PCSISystem.

(** ** Vocabulary of the statements *)

Import PCSISystem.

(** The pattern of [rule] compiles and does not match [url]. *)
Definition misses (url : str) (rule : Rule.t) : Prop :=
  Re.re_match (Rule.pattern rule) url = Some false.

(** The pattern of [rule] compiles and matches [url]. *)
Definition hits (url : str) (rule : Rule.t) : Prop :=
  Re.re_match (Rule.pattern rule) url = Some true.

(** The default rule that [process_url] registers at clock [now]. *)
Definition default_rule (source_id : str) (now : Z) : Rule.t :=
  Rule.mk source_id now default_pattern placeholder_hash (lit "article") None.

(** The first half of [process_url] resolves [rule] and leaves the world
    [w1]: a registered rule matched, or none did, the URL is eligible and
    the default rule was registered. *)
Inductive resolved (e : env) (url : str) (w : world) : Rule.t -> world -> Prop :=
| resolved_match (rule : Rule.t) (w1 : world) :
    find_matching_rule url w = Some (Some rule, w1) ->
    resolved e url w rule w1
| resolved_default (rule : Rule.t) (w1 w2 : world) :
    find_matching_rule url w = Some (None, w1) ->
    eligible url = true ->
    add_rule (rule_time e) default_pattern placeholder_hash (lit "article") None w1
      = Some (rule, w2) ->
    resolved e url w rule w2.






(** The length in bytes of the UTF-8 encoding of a string. *)
Definition byte_length (s : str) : Z := Z.of_nat (length (Utf8.encode s)).

(** A string of ASCII characters only. *)
Definition ascii_only (s : str) : Prop := Forall (fun c => c < 128) s.

(** ** Sample runs *)

(** A ledger with nothing registered or recorded. *)
Definition fresh_world (source_id : str) : world :=
  World (mk source_id [] [] []) [] [].

(** A small document: a headline, a date, an author, one subheading. *)
Definition sample_document : Article.t :=
  Article.new (lit "H") 1700000000 (lit "A")
              (ArticleBody.mk [ArticleBody.H (Subheading.mk (lit "S"))]).

(** An extractor that returns the sample document for every URL. *)
Definition returning : env := Env 1700000100 1700000101 (fun _ => Returned sample_document).

(** An extractor that raises with the given message for every URL. *)
Definition raising (message : str) : env :=
  Env 1700000100 1700000101 (fun _ => Raised message).

Definition bbc_url : str := lit "https://www.bbc.com/news/articles/c8e6wj07xlno".

(** A BBC address on another host than the default pattern allows. *)
Definition mobile_url : str := lit "https://m.bbc.com/news/world-1".

(** An extractor that returns the given document for every URL. *)
Definition extracting (doc : Article.t) : env :=
  Env 1700000100 1700000101 (fun _ => Returned doc).

(** A document whose author is one unpaired surrogate, U+D83D, as
    [json.loads] gives it for the JSON text of an emoji cut in two. *)
Definition unpaired_document : Article.t :=
  Article.new (lit "H") 1700000000 [55357] (ArticleBody.mk []).

(** ** The loop of [main]

    What [main] does to the ledger for each URL, without [--save-content]
    and [--verbose]: the URL is processed, and a document that comes back
    is followed by a perception that declares it valid.  What [main]
    prints on the console is not part of the world. *)




(** ** More vocabulary *)

(** The pattern of [rule] is in the modelled syntax. *)
Definition compiles (rule : Rule.t) : Prop :=
  Re.compile (Rule.pattern rule) <> None.


(** Every record of the ledger carries the source identifier of the ledger. *)
Definition same_source (s : t) : Prop :=
  Forall (fun r => Rule.source r = source_id s) (rules s)
  /\ Forall (fun i => Inference.source i = source_id s) (inferences s)
  /\ Forall (fun p => Perception.source p = source_id s) (perceptions s).

(** A URL that the default pattern covers: one of the two schemes, the
    host with or without [www.], and a slash. *)
Definition covered (url : str) : bool :=
  startswith (lit "http://bbc.com/") url
  || startswith (lit "http://www.bbc.com/") url
  || startswith (lit "https://bbc.com/") url
  || startswith (lit "https://www.bbc.com/") url.


(** A decimal digit. *)
Definition is_digit (c : N) : Prop := 48 <= c <= 57.

(** A string without whitespace at either end. *)
Definition trimmed (s : str) : Prop :=
  match s with [] => True | c :: _ => isspace c = false end
  /\ match rev s with [] => True | c :: _ => isspace c = false end.

(** The text that a child of an element contributes to a paragraph: a
    string of the tree is taken whole, a line break gives nothing, any
    other tag gives its text. *)
Definition child_text (c : BBCArticleExtractor.child) : str :=
  match c with
  | BBCArticleExtractor.NavigableString s => s
  | BBCArticleExtractor.Tag name _ text =>
      if str_eqb name (lit "br") then [] else text
  end.

(** The addresses of the links among the children of an element: the
    anchors with a non-empty [href], made absolute. *)
Definition link_targets (children : list BBCArticleExtractor.child) : list str :=
  flat_map
    (fun c =>
       match c with
       | BBCArticleExtractor.Tag name (Some url) _ =>
           if str_eqb name (lit "a") && truthy url
           then [BBCArticleExtractor.absolute url] else []
       | _ => []
       end)
    children.

(** The texts of the items of a paragraph, put together. *)
Definition texts_of (items : list Paragraph.item) : str :=
  concat (map (fun i => match i with
                        | Paragraph.Text s => s
                        | Paragraph.Ref _ => []
                        end) items).

(** The addresses of the links of a paragraph, in order. *)
Definition links_of (items : list Paragraph.item) : list str :=
  flat_map (fun i => match i with
                     | Paragraph.Text _ => []
                     | Paragraph.Ref l => [Link.url l]
                     end) items.

(** The canonical form of one item of a paragraph, as the loop of
    [Paragraph.to_sexp] appends it. *)
Definition item_to_sexp (i : Paragraph.item) : str :=
  match i with
  | Paragraph.Text s => create_string (Some s)
  | Paragraph.Ref l => Link.to_sexp l
  end.

(** An item of a paragraph that holds no character: an empty text, or a
    link to the empty address. *)
Definition blank_item (i : Paragraph.item) : bool :=
  match i with
  | Paragraph.Text s => negb (truthy s)
  | Paragraph.Ref l => negb (truthy (Link.url l))
  end.

(** An item of a paragraph that holds a character, and so shows in the
    canonical form. *)
Definition kept (i : Paragraph.item) : Prop := blank_item i = false.

(** An element of a body that holds no character. *)
Definition blank (e : ArticleBody.element) : bool :=
  match e with
  | ArticleBody.P p => forallb blank_item (Paragraph.content p)
  | ArticleBody.H h => negb (truthy (Subheading.text h))
  | ArticleBody.I i => negb (truthy (Image.url i)) && negb (truthy (Image.caption i))
  end.

(** * Properties *)

Example sha256_abc :
  Utf8.decode_ascii (Base64.b64encode (Sha256.digest (Utf8.encode (lit "abc"))))
  = lit "ungWv48Bz+pBQUDeXa4iI7ADYaOWF3qctBD/YfIAFa0=".
Proof. vm_compute. reflexivity. Qed.

Example sha256_empty :
  Utf8.decode_ascii (Base64.b64encode (Sha256.digest (Utf8.encode [])))
  = lit "47DEQpj8HBSa+/TImW+5JCeuQeRkm5NMpJWZG3hSuFU=".
Proof. vm_compute. reflexivity. Qed.

Example re_default_pattern :
  Re.re_match (lit "https?://(www\.)?bbc\.com/.*")
              (lit "https://www.bbc.com/news/articles/c8e6wj07xlno") = Some true
  /\ Re.re_match (lit "https?://(www\.)?bbc\.com/.*")
                 (lit "https://m.bbc.com/news/world-1") = Some false
  /\ Re.re_match (lit "(") (lit "a") = None
  /\ Re.re_match (lit "a|") (lit "b") = Some true
  /\ Re.re_match (lit "(ab|c)+d") (lit "abcabdx") = Some true
  /\ Re.re_match (lit "(ab|c)+d") (lit "xabd") = Some false
  /\ Re.re_match (lit "a.*b") [97; 10; 98] = Some false.
Proof. vm_compute. repeat split. Qed.

(** The messages of the codec, as CPython words them: one surrogate, and
    a run of three. *)
Example encode_raises_one :
  Utf8.encode_raises [97; 98; 57343]
  = Some (lit "'utf-8' codec can't encode character '\udfff' in position 2: surrogates not allowed").
Proof. vm_compute. reflexivity. Qed.

Example encode_raises_run :
  Utf8.encode_raises [55296; 55297; 55298; 120]
  = Some (lit "'utf-8' codec can't encode characters in position 0-2: surrogates not allowed").
Proof. vm_compute. reflexivity. Qed.

(** The digit limit: 4300 digits print, 4301 do not, the sign not
    counted. *)
Example str_of_int_limit :
  str_of_int_raises (10 ^ 4300 - 1) = None
  /\ str_of_int_raises (- 10 ^ 4300)
     = Some (lit "Exceeds the limit (4300 digits) for integer string conversion; use sys.set_int_max_str_digits() to increase the limit").
Proof. split; vm_compute; reflexivity. Qed.

(** ** The matcher against the strings of a regular expression *)

Section Matcher.

Import Re.

Lemma nullable_denotes (r : regex) : nullable r = true <-> denotes r [].
Proof.
  split.
  - induction r; simpl; intros H; try discriminate.
    + constructor.
    + apply andb_true_iff in H as [H1 H2].
      change (@nil N) with (@nil N ++ []). constructor; auto.
    + apply orb_true_iff in H as [H|H];
        [apply denotes_alt_l | apply denotes_alt_r]; auto.
    + constructor.
  - intros H. remember (@nil N) as s eqn:Es.
    induction H; simpl; try discriminate; auto.
    + apply app_eq_nil in Es as [E1 E2]. rewrite IHdenotes1, IHdenotes2; auto.
    + rewrite IHdenotes; auto.
    + rewrite IHdenotes; auto. apply orb_true_r.
Qed.

Lemma deriv_sound (c : N) (r : regex) (s : str) :
  denotes (deriv c r) s -> denotes r (c :: s).
Proof.
  revert s. induction r; simpl; intros s H.
  - inversion H.
  - inversion H.
  - destruct (c =? c0) eqn:E; inversion H; subst.
    apply N.eqb_eq in E. subst. constructor.
  - destruct (c =? 10) eqn:E; inversion H; subst.
    apply N.eqb_neq in E. constructor. exact E.
  - destruct (nullable r1) eqn:En.
    + inversion H as [| | | |? ? ? Hl|? ? ? Hr| |]; subst.
      * inversion Hl; subst.
        change (c :: s1 ++ s2) with ((c :: s1) ++ s2). constructor; auto.
      * change (c :: s) with ([] ++ c :: s). constructor; auto.
        apply nullable_denotes. exact En.
    + inversion H; subst.
      change (c :: s1 ++ s2) with ((c :: s1) ++ s2). constructor; auto.
  - inversion H; subst; [apply denotes_alt_l | apply denotes_alt_r]; auto.
  - inversion H; subst.
    change (c :: s1 ++ s2) with ((c :: s1) ++ s2). constructor; auto.
Qed.

Lemma deriv_complete (c : N) (r : regex) (s : str) :
  denotes r (c :: s) -> denotes (deriv c r) s.
Proof.
  intros H. remember (c :: s) as cs eqn:E. revert c s E.
  induction H; intros c0 s0 E; simpl; try discriminate.
  - injection E as -> <-. rewrite N.eqb_refl. constructor.
  - injection E as -> <-.
    destruct (c0 =? 10) eqn:E10; [apply N.eqb_eq in E10; contradiction | constructor].
  - destruct s1 as [|x s1'].
    + simpl in E. subst s2.
      assert (Hn : nullable r1 = true) by (apply nullable_denotes; assumption).
      rewrite Hn. apply denotes_alt_r. apply IHdenotes2. reflexivity.
    + simpl in E. injection E as -> <-.
      specialize (IHdenotes1 c0 s1' eq_refl).
      destruct (nullable r1); [apply denotes_alt_l|]; constructor; auto.
  - apply denotes_alt_l. auto.
  - apply denotes_alt_r. auto.
  - destruct s1 as [|x s1'].
    + simpl in E. apply IHdenotes2 in E. exact E.
    + simpl in E. injection E as -> <-.
      constructor; auto.
Qed.

(** [matches_at_start] decides whether some prefix of the string is a
    string of the expression. *)
Lemma matches_at_start_denotes (r : regex) (s : str) :
  matches_at_start r s = true
  <-> exists prefix rest, s = prefix ++ rest /\ denotes r prefix.
Proof.
  revert r. induction s as [|c s IH]; intros r; simpl.
  - rewrite orb_false_r. rewrite nullable_denotes. split.
    + intros H. exists [], []. split; [reflexivity | exact H].
    + intros (prefix & rest & E & H). symmetry in E.
      apply app_eq_nil in E as [-> _]. exact H.
  - rewrite orb_true_iff, nullable_denotes, IH. split.
    + intros [H | (prefix & rest & E & H)].
      * exists [], (c :: s). split; [reflexivity | exact H].
      * exists (c :: prefix), rest. split; [rewrite E; reflexivity|].
        apply deriv_sound. exact H.
    + intros (prefix & rest & E & H). destruct prefix as [|x prefix].
      * left. exact H.
      * right. simpl in E. injection E as <- ->.
        exists prefix, rest. split; [reflexivity|]. apply deriv_complete. exact H.
Qed.

End Matcher.


(** ** Rule lookup *)

Section Lookup.

Variable url : str.

Lemma first_match_skips (pre rest : list Rule.t) (w : world) :
  Forall (misses url) pre ->
  first_match (pre ++ rest) url w = first_match rest url w.
Proof.
  induction 1 as [|rule pre Hrule _ IH]; [reflexivity|].
  simpl. unfold misses in Hrule. rewrite Hrule. exact IH.
Qed.

Lemma first_match_stops (rule : Rule.t) (post : list Rule.t) (w : world) :
  hits url rule ->
  first_match (rule :: post) url w
  = Some (Some rule, logged INFO (lit "Found matching rule for " ++ url) w).
Proof.
  intros Hrule. simpl. unfold hits in Hrule. rewrite Hrule. reflexivity.
Qed.

Lemma first_match_exhausts (rules : list Rule.t) (w : world) :
  Forall (misses url) rules ->
  first_match rules url w
  = Some (None, logged INFO (lit "No matching rule found for " ++ url) w).
Proof.
  intros H. rewrite <- (app_nil_r rules). rewrite first_match_skips by exact H.
  reflexivity.
Qed.

(** A lookup that returns changes the log only, and what it returns is a
    registered rule whose pattern matches. *)
Lemma first_match_frame (rules : list Rule.t) (w w1 : world) (found : option Rule.t) :
  first_match rules url w = Some (found, w1) ->
  self w1 = self w /\ files w1 = files w
  /\ match found with
     | Some rule => In rule rules /\ hits url rule
     | None => Forall (misses url) rules
     end.
Proof.
  induction rules as [|rule rest IH]; simpl.
  - intros H. injection H as <- <-. repeat split. constructor.
  - destruct (Re.re_match (Rule.pattern rule) url) as [[|]|] eqn:Hm.
    + intros H. injection H as <- <-. repeat split; auto.
    + intros H. destruct (IH H) as (Hs & Hf & Hfound).
      repeat split; auto. destruct found as [r|].
      * destruct Hfound. split; auto.
      * constructor; auto.
    + discriminate.
Qed.

Lemma find_matching_rule_frame (w w1 : world) (found : option Rule.t) :
  find_matching_rule url w = Some (found, w1) ->
  self w1 = self w /\ files w1 = files w
  /\ match found with
     | Some rule => In rule (rules (self w)) /\ hits url rule
     | None => Forall (misses url) (rules (self w))
     end.
Proof. apply first_match_frame. Qed.

End Lookup.

(** What [add_rule] does, in full. *)
Lemma add_rule_run (now : Z) (pattern script_hash object_type : str)
    (script : option str) (w : world) :
  let rule := Rule.mk (source_id (self w)) now pattern script_hash object_type script in
  add_rule now pattern script_hash object_type script w
  = Some (rule,
          logged INFO (lit "Added rule for pattern: " ++ pattern)
            (World (mk (source_id (self w)) (rules (self w) ++ [rule])
                       (inferences (self w)) (perceptions (self w)))
                   (log w) (files w))).
Proof. reflexivity. Qed.



(** ** Processing a URL *)

Section ProcessUrl.

Variables (e : env) (url : str).

(** Resolution touches the rule list (at most one rule appended) and the
    log, nothing else. *)
Lemma resolved_frame (w w1 : world) (rule : Rule.t) :
  resolved e url w rule w1 ->
  source_id (self w1) = source_id (self w)
  /\ inferences (self w1) = inferences (self w)
  /\ perceptions (self w1) = perceptions (self w)
  /\ files w1 = files w
  /\ In rule (rules (self w1)).
Proof.
  intros [r w' Hfind | r w' w'' Hfind Hel Hadd].
  - destruct (find_matching_rule_frame url _ _ _ Hfind) as (Hs & Hf & Hin & _).
    rewrite Hs. auto.
  - destruct (find_matching_rule_frame url _ _ _ Hfind) as (Hs & Hf & _).
    rewrite add_rule_run in Hadd. injection Hadd as <- <-. simpl.
    rewrite Hs, Hf. repeat split; auto.
    apply in_or_app. right. left. reflexivity.
Qed.

Lemma process_url_resolved (w w1 : world) (rule : Rule.t) :
  resolved e url w rule w1 ->
  process_url e url w = apply_rule e url rule w1.
Proof.
  intros [r w' Hfind | r w' w'' Hfind Hel Hadd]; unfold process_url, bind.
  - rewrite Hfind. reflexivity.
  - rewrite Hfind, Hel.
    change (match add_rule (rule_time e) default_pattern placeholder_hash
                    (lit "article") None w' with
            | Some (a, w'0) => apply_rule e url a w'0
            | None => None
            end = apply_rule e url r w'').
    rewrite Hadd. reflexivity.
Qed.

Lemma apply_rule_returned (w : world) (rule : Rule.t) (doc : Article.t) :
  extract e url = Returned doc ->
  Article.hash_raises doc = None ->
  let inference :=
    Inference.mk (source_id (self w)) (inference_time e) url (Rule.script_hash rule)
                 (Some (Rule.object_type rule))
                 (Some (hash_sexp (Article.to_sexp doc))) None None None in
  apply_rule e url rule w
  = Some ((Some doc, Some inference),
          World (mk (source_id (self w)) (rules (self w))
                    (inferences (self w) ++ [inference]) (perceptions (self w)))
                (log w) (files w)).
Proof.
  intros Hex Hhash. unfold apply_rule, bind, read. rewrite Hex, Hhash. reflexivity.
Qed.

(** The document comes back and its hashing raises: the handler finds the
    inference with its object type already set. *)
Lemma apply_rule_unhashable (w : world) (rule : Rule.t) (doc : Article.t)
    (message : str) :
  extract e url = Returned doc ->
  Article.hash_raises doc = Some message ->
  let inference :=
    Inference.mk (source_id (self w)) (inference_time e) url (Rule.script_hash rule)
                 (Some (Rule.object_type rule)) None (Some message) None None in
  apply_rule e url rule w
  = Some ((None, Some inference),
          World (mk (source_id (self w)) (rules (self w))
                    (inferences (self w) ++ [inference]) (perceptions (self w)))
                (log w ++ [(ERROR, lit "Error extracting content: " ++ message)])
                (files w)).
Proof.
  intros Hex Hhash. unfold apply_rule, bind, read. rewrite Hex, Hhash. reflexivity.
Qed.

Lemma apply_rule_raised (w : world) (rule : Rule.t) (message : str) :
  extract e url = Raised message ->
  let inference :=
    Inference.mk (source_id (self w)) (inference_time e) url (Rule.script_hash rule)
                 None None (Some message) None None in
  apply_rule e url rule w
  = Some ((None, Some inference),
          World (mk (source_id (self w)) (rules (self w))
                    (inferences (self w) ++ [inference]) (perceptions (self w)))
                (log w ++ [(ERROR, lit "Error extracting content: " ++ message)])
                (files w)).
Proof.
  intros Hex. unfold apply_rule, bind, read. rewrite Hex. reflexivity.
Qed.

End ProcessUrl.

(** C1 as stated fails: the extractor returns a document, and the call
    returns no document and an inference that records a failure.  The
    author of the document is an unpaired surrogate, which the hash cannot
    encode; the exception is raised inside the [try] block, after the
    object type is set. *)
Lemma returned_document_recorded_as_failure :
  extract (extracting unpaired_document) bbc_url = Returned unpaired_document
  /\ exists inference w2,
       process_url (extracting unpaired_document) bbc_url (fresh_world (lit "src"))
       = Some ((None, Some inference), w2)
       /\ Inference.error inference
          = Some (lit "'utf-8' codec can't encode character '\ud83d' in position 57: surrogates not allowed")
       /\ Inference.object_type inference = Some (lit "article")
       /\ Inference.object_hash inference = None
       /\ inferences (self w2) = [inference].
Proof.
  split; [reflexivity|].
  eexists. eexists. split; [vm_compute; reflexivity|].
  repeat split; reflexivity.
Qed.

(** C1, amended.  When a rule resolves and the extractor returns a
    document whose hashing does not raise, [process_url] returns the
    document with an inference whose object type is the rule's, whose
    object hash is the hash of the document's canonical form, and whose
    error is unset; that inference is the one appended to the ledger's
    inferences.  When the hashing raises, the call returns no document
    and an inference that carries the message of the exception as its
    error, the rule's object type and no object hash; that inference is
    appended all the same. *)
Theorem process_url_success (e : env) (url : str) (w w1 : world)
    (rule : Rule.t) (doc : Article.t) :
  resolved e url w rule w1 ->
  extract e url = Returned doc ->
  (Article.hash_raises doc = None ->
   exists inference w2,
     process_url e url w = Some ((Some doc, Some inference), w2)
     /\ Inference.object_type inference = Some (Rule.object_type rule)
     /\ Inference.object_hash inference = Some (hash_sexp (Article.to_sexp doc))
     /\ Inference.error inference = None
     /\ Inference.url inference = url
     /\ Inference.script_hash inference = Rule.script_hash rule
     /\ Inference.source inference = source_id (self w)
     /\ Inference.timestamp inference = inference_time e
     /\ inferences (self w2) = inferences (self w) ++ [inference]
     /\ rules (self w2) = rules (self w1)
     /\ perceptions (self w2) = perceptions (self w))
  /\ (forall message,
       Article.hash_raises doc = Some message ->
       exists inference w2,
         process_url e url w = Some ((None, Some inference), w2)
         /\ Inference.error inference = Some message
         /\ Inference.object_type inference = Some (Rule.object_type rule)
         /\ Inference.object_hash inference = None
         /\ Inference.url inference = url
         /\ Inference.script_hash inference = Rule.script_hash rule
         /\ inferences (self w2) = inferences (self w) ++ [inference]
         /\ rules (self w2) = rules (self w1)
         /\ perceptions (self w2) = perceptions (self w)).
Proof.
  intros Hres Hex.
  destruct (resolved_frame e url w w1 rule Hres) as (Hsrc & Hinf & Hper & _ & _).
  rewrite (process_url_resolved e url w w1 rule Hres).
  split.
  - intros Hhash.
    rewrite (apply_rule_returned e url w1 rule doc Hex Hhash).
    eexists. eexists. split; [reflexivity|]. simpl.
    rewrite Hsrc, Hinf, Hper. repeat split; reflexivity.
  - intros message Hhash.
    rewrite (apply_rule_unhashable e url w1 rule doc message Hex Hhash).
    eexists. eexists. split; [reflexivity|]. simpl.
    rewrite Hinf, Hper. repeat split; reflexivity.
Qed.

(** The sample document extracted for a BBC address on a fresh ledger:
    the default rule resolves, and the document can be hashed. *)
Lemma process_url_success_witness :
  exists inference w2,
    process_url returning bbc_url (fresh_world (lit "src"))
    = Some ((Some sample_document, Some inference), w2)
    /\ Inference.object_type inference
       = Some (Rule.object_type (default_rule (lit "src") 1700000100))
    /\ Inference.object_hash inference = Some (hash_sexp (Article.to_sexp sample_document))
    /\ Inference.error inference = None
    /\ Inference.url inference = bbc_url
    /\ Inference.script_hash inference
       = Rule.script_hash (default_rule (lit "src") 1700000100)
    /\ Inference.source inference = source_id (self (fresh_world (lit "src")))
    /\ Inference.timestamp inference = inference_time returning
    /\ inferences (self w2) = inferences (self (fresh_world (lit "src"))) ++ [inference]
    /\ rules (self w2) = [default_rule (lit "src") 1700000100]
    /\ perceptions (self w2) = perceptions (self (fresh_world (lit "src"))).
Proof.
  refine (proj1 (process_url_success returning bbc_url (fresh_world (lit "src"))
            (logged INFO (lit "Added rule for pattern: " ++ default_pattern)
               (World (mk (lit "src") [default_rule (lit "src") 1700000100] [] [])
                      [(INFO, lit "No matching rule found for " ++ bbc_url)] []))
            (default_rule (lit "src") 1700000100) sample_document _ _) _).
  - eapply resolved_default.
    + vm_compute. reflexivity.
    + vm_compute. reflexivity.
    + reflexivity.
  - reflexivity.
  - vm_compute. reflexivity.
Defined.

(** C5.  When a rule resolves and the extractor raises, [process_url]
    returns normally, with no document and an inference whose error is the
    message of the exception and whose object type and hash are unset; the
    inference is appended to the ledger's inferences. *)
Theorem process_url_extraction_failure (e : env) (url : str) (w w1 : world)
    (rule : Rule.t) (message : str) :
  resolved e url w rule w1 ->
  extract e url = Raised message ->
  exists inference w2,
    process_url e url w = Some ((None, Some inference), w2)
    /\ Inference.error inference = Some message
    /\ Inference.object_type inference = None
    /\ Inference.object_hash inference = None
    /\ Inference.url inference = url
    /\ Inference.script_hash inference = Rule.script_hash rule
    /\ inferences (self w2) = inferences (self w) ++ [inference]
    /\ In inference (inferences (self w2)).
Proof.
  intros Hres Hex.
  destruct (resolved_frame e url w w1 rule Hres) as (Hsrc & Hinf & _).
  rewrite (process_url_resolved e url w w1 rule Hres).
  rewrite (apply_rule_raised e url w1 rule message Hex).
  eexists. eexists. split; [reflexivity|]. simpl.
  rewrite Hinf. repeat split; try reflexivity.
  apply in_or_app. right. left. reflexivity.
Qed.

(** The extractor raises with the message [timeout]. *)
Lemma process_url_extraction_failure_witness :
  exists inference w2,
    process_url (raising (lit "timeout")) bbc_url (fresh_world (lit "src"))
    = Some ((None, Some inference), w2)
    /\ Inference.error inference = Some (lit "timeout")
    /\ Inference.object_type inference = None
    /\ Inference.object_hash inference = None
    /\ Inference.url inference = bbc_url
    /\ Inference.script_hash inference
       = Rule.script_hash (default_rule (lit "src") 1700000100)
    /\ inferences (self w2) = inferences (self (fresh_world (lit "src"))) ++ [inference]
    /\ In inference (inferences (self w2)).
Proof.
  refine (process_url_extraction_failure (raising (lit "timeout")) bbc_url
            (fresh_world (lit "src"))
            (logged INFO (lit "Added rule for pattern: " ++ default_pattern)
               (World (mk (lit "src") [default_rule (lit "src") 1700000100] [] [])
                      [(INFO, lit "No matching rule found for " ++ bbc_url)] []))
            (default_rule (lit "src") 1700000100) (lit "timeout") _ _).
  - eapply resolved_default.
    + vm_compute. reflexivity.
    + vm_compute. reflexivity.
    + reflexivity.
  - reflexivity.
Defined.

(** C10.  When a rule resolves and the extractor raises with the empty
    message, the recorded inference has the empty string as its error, and
    its canonical form goes through the success branch: no error group, no
    object-type group, and an object-hash group that holds [|None|]. *)
Theorem empty_message_serializes_as_success (e : env) (url : str) (w w1 : world)
    (rule : Rule.t) :
  resolved e url w rule w1 ->
  extract e url = Raised [] ->
  exists inference w2,
    process_url e url w = Some ((None, Some inference), w2)
    /\ inferences (self w2) = inferences (self w) ++ [inference]
    /\ Inference.error inference = Some []
    /\ create_object (lit "error") (create_string (Inference.error inference)) = []
    /\ create_object (lit "object-type")
                     (create_string (Inference.object_type inference)) = []
    /\ create_object (lit "object-hash")
                     (lit "|" ++ format_opt (Inference.object_hash inference) ++ lit "|")
       = lit "(11:object-hash|None|)"
    /\ Inference.to_sexp inference
       = lit "(9:inference"
         ++ ((create_object (lit "source") (lit "|" ++ source_id (self w) ++ lit "|")
              ++ create_object (lit "timestamp")
                   (create_string (Some (str_of_int (inference_time e))))
              ++ create_object (lit "url") (create_string (Some url))
              ++ create_object (lit "script-hash")
                   (lit "|" ++ Rule.script_hash rule ++ lit "|"))
             ++ lit "(11:object-hash|None|)")
         ++ lit ")".
Proof.
  intros Hres Hex.
  destruct (resolved_frame e url w w1 rule Hres) as (Hsrc & Hinf & _).
  rewrite (process_url_resolved e url w w1 rule Hres).
  rewrite (apply_rule_raised e url w1 rule [] Hex).
  eexists. eexists. split; [reflexivity|].
  rewrite Hsrc. simpl inferences. rewrite Hinf.
  repeat split; reflexivity.
Qed.

(** The extractor raises with the empty message on a fresh ledger. *)
Lemma empty_message_serializes_as_success_witness :
  exists inference w2,
    process_url (raising []) bbc_url (fresh_world (lit "src"))
    = Some ((None, Some inference), w2)
    /\ inferences (self w2) = inferences (self (fresh_world (lit "src"))) ++ [inference]
    /\ Inference.error inference = Some []
    /\ create_object (lit "error") (create_string (Inference.error inference)) = []
    /\ create_object (lit "object-type")
                     (create_string (Inference.object_type inference)) = []
    /\ create_object (lit "object-hash")
                     (lit "|" ++ format_opt (Inference.object_hash inference) ++ lit "|")
       = lit "(11:object-hash|None|)"
    /\ Inference.to_sexp inference
       = lit "(9:inference"
         ++ ((create_object (lit "source")
                (lit "|" ++ source_id (self (fresh_world (lit "src"))) ++ lit "|")
              ++ create_object (lit "timestamp")
                   (create_string (Some (str_of_int (inference_time (raising [])))))
              ++ create_object (lit "url") (create_string (Some bbc_url))
              ++ create_object (lit "script-hash")
                   (lit "|" ++ Rule.script_hash (default_rule (lit "src") 1700000100)
                    ++ lit "|"))
             ++ lit "(11:object-hash|None|)")
         ++ lit ")".
Proof.
  refine (empty_message_serializes_as_success (raising []) bbc_url
            (fresh_world (lit "src"))
            (logged INFO (lit "Added rule for pattern: " ++ default_pattern)
               (World (mk (lit "src") [default_rule (lit "src") 1700000100] [] [])
                      [(INFO, lit "No matching rule found for " ++ bbc_url)] []))
            (default_rule (lit "src") 1700000100) _ _).
  - eapply resolved_default.
    + vm_compute. reflexivity.
    + vm_compute. reflexivity.
    + reflexivity.
  - reflexivity.
Defined.

(** C4, on the input that breaks it.  The extractor raises with the empty
    message on a fresh ledger: the inference that [process_url] records has
    no object type, no object hash and an error that does not count as
    one, and its canonical form holds neither an error group nor a real
    hash, but an object-hash group around the text [None]. *)
Theorem empty_message_leaves_no_outcome :
  exists inference w2,
    process_url (raising []) bbc_url (fresh_world (lit "src"))
    = Some ((None, Some inference), w2)
    /\ inferences (self w2) = [inference]
    /\ truthy_opt (Inference.error inference) = false
    /\ Inference.object_type inference = None
    /\ Inference.object_hash inference = None
    /\ Inference.to_sexp inference
       = lit "(9:inference(6:source|src|)(9:timestamp10:1700000101)(3:url46:https://www.bbc.com/news/articles/c8e6wj07xlno)(11:script-hash|CY7Iwrrw5i7MyjV7Zqdwf2Tj0Hb3iCsJF4Sv6jcrUyw=|)(11:object-hash|None|))".
Proof.
  eexists. eexists. split; [vm_compute; reflexivity|].
  repeat split; vm_compute; reflexivity.
Qed.

(** ** Which calls register the default rule *)

Section DefaultRule.

Variables (e : env) (url : str).

(** Once a rule is resolved the call returns, and the rules stay as the
    resolution left them. *)
Lemma apply_rule_keeps_rules (w : world) (rule : Rule.t) :
  exists result w2,
    apply_rule e url rule w = Some (result, w2)
    /\ rules (self w2) = rules (self w)
    /\ source_id (self w2) = source_id (self w).
Proof.
  destruct (extract e url) as [doc|message] eqn:Hex.
  - destruct (Article.hash_raises doc) as [message|] eqn:Hhash.
    + rewrite (apply_rule_unhashable e url w rule doc message Hex Hhash).
      eexists. eexists. split; [reflexivity|]. split; reflexivity.
    + rewrite (apply_rule_returned e url w rule doc Hex Hhash).
      eexists. eexists. split; [reflexivity|]. split; reflexivity.
  - rewrite (apply_rule_raised e url w rule message Hex).
    eexists. eexists. split; [reflexivity|]. split; reflexivity.
Qed.

(** Once a rule is resolved the call returns an inference. *)
Lemma apply_rule_gives_inference (w : world) (rule : Rule.t) :
  exists result w2,
    apply_rule e url rule w = Some (result, w2) /\ snd result <> None.
Proof.
  destruct (extract e url) as [doc|message] eqn:Hex.
  - destruct (Article.hash_raises doc) as [message|] eqn:Hhash.
    + rewrite (apply_rule_unhashable e url w rule doc message Hex Hhash).
      eexists. eexists. split; [reflexivity|discriminate].
    + rewrite (apply_rule_returned e url w rule doc Hex Hhash).
      eexists. eexists. split; [reflexivity|discriminate].
  - rewrite (apply_rule_raised e url w rule message Hex).
    eexists. eexists. split; [reflexivity|discriminate].
Qed.

(** No registered rule matches and the URL is eligible: the default rule
    is appended. *)
Lemma process_url_registers (w : world) :
  Forall (misses url) (rules (self w)) ->
  eligible url = true ->
  exists result w2,
    process_url e url w = Some (result, w2)
    /\ rules (self w2)
       = rules (self w) ++ [default_rule (source_id (self w)) (rule_time e)]
    /\ source_id (self w2) = source_id (self w).
Proof.
  intros Hall Hel.
  pose (w1 := logged INFO (lit "No matching rule found for " ++ url) w).
  assert (Hfind : find_matching_rule url w = Some (None, w1)).
  { unfold find_matching_rule, bind, read. apply first_match_exhausts. exact Hall. }
  pose proof (add_rule_run (rule_time e) default_pattern placeholder_hash
                (lit "article") None w1) as Hadd.
  cbv zeta in Hadd.
  rewrite (process_url_resolved e url w _ _ (resolved_default e url w _ _ _ Hfind Hel Hadd)).
  match goal with
  | |- exists _ _, apply_rule _ _ ?r ?w' = _ /\ _ =>
      destruct (apply_rule_keeps_rules w' r) as (result & w2 & Hrun & Hrules & Hsrc)
  end.
  exists result, w2. split; [exact Hrun|]. split; [exact Hrules|exact Hsrc].
Qed.

(** No registered rule matches and the URL is not eligible: the call
    returns nothing and leaves the ledger as it is. *)
Lemma process_url_gives_up (w : world) :
  Forall (misses url) (rules (self w)) ->
  eligible url = false ->
  exists w2,
    process_url e url w = Some ((None, None), w2)
    /\ self w2 = self w.
Proof.
  intros Hall Hel.
  unfold process_url, bind.
  assert (Hfind : find_matching_rule url w
                  = Some (None, logged INFO (lit "No matching rule found for " ++ url) w)).
  { unfold find_matching_rule, bind, read. apply first_match_exhausts. exact Hall. }
  rewrite Hfind, Hel. eexists. split; reflexivity.
Qed.

End DefaultRule.

(** C7, on the input that breaks it.  [https://m.bbc.com/news/world-1] is
    eligible, yet the pattern of the default rule does not match it.  On a
    fresh ledger the first call registers the default rule; the second
    call for the same URL finds no match again and registers the default
    rule a second time. *)
Theorem default_rule_registered_twice (source : str) (e1 e2 : env) :
  eligible mobile_url = true
  /\ Re.re_match default_pattern mobile_url = Some false
  /\ exists result1 w1 result2 w2,
       process_url e1 mobile_url (fresh_world source) = Some (result1, w1)
       /\ rules (self w1) = [default_rule source (rule_time e1)]
       /\ process_url e2 mobile_url w1 = Some (result2, w2)
       /\ rules (self w2)
          = [default_rule source (rule_time e1); default_rule source (rule_time e2)].
Proof.
  split; [vm_compute; reflexivity|]. split; [vm_compute; reflexivity|].
  destruct (process_url_registers e1 mobile_url (fresh_world source))
    as (result1 & w1 & Hrun1 & Hrules1 & Hsrc1).
  { constructor. }
  { vm_compute. reflexivity. }
  destruct (process_url_registers e2 mobile_url w1)
    as (result2 & w2 & Hrun2 & Hrules2 & _).
  { rewrite Hrules1. simpl. constructor; [|constructor].
    unfold misses. vm_compute. reflexivity. }
  { vm_compute. reflexivity. }
  exists result1, w1, result2, w2.
  rewrite Hrules2, Hrules1, Hsrc1. simpl. repeat split; assumption.
Qed.

(** ** Export *)












(** ** Atoms and groups *)

Lemma encode_char_length (c : N) :
  (c < 128 -> length (Utf8.encode_char c) = 1%nat)
  /\ (128 <= c -> (2 <= length (Utf8.encode_char c))%nat).
Proof.
  unfold Utf8.encode_char.
  destruct (c <? 128) eqn:H1; [apply N.ltb_lt in H1 | apply N.ltb_ge in H1].
  - split; [reflexivity | lia].
  - split; [lia | intros _].
    destruct (c <? 2048); [simpl; lia|].
    destruct (c <? 65536); simpl; lia.
Qed.

Lemma encode_length_ge (s : str) : (length s <= length (Utf8.encode s))%nat.
Proof.
  induction s as [|c s IH]; [apply Nat.le_refl|].
  unfold Utf8.encode in *. simpl. rewrite length_app.
  destruct (encode_char_length c) as [Hlt Hge].
  destruct (N.lt_ge_cases c 128) as [H|H]; [rewrite (Hlt H) | specialize (Hge H)]; lia.
Qed.

(** The number of bytes is the number of characters exactly for ASCII text. *)
Lemma byte_length_ascii (s : str) : byte_length s = len s <-> ascii_only s.
Proof.
  unfold byte_length, len, ascii_only.
  induction s as [|c s IH].
  - split; [constructor | reflexivity].
  - unfold Utf8.encode in *. simpl flat_map. rewrite length_app. simpl length.
    destruct (encode_char_length c) as [Hlt Hge].
    pose proof (encode_length_ge s) as Hs. unfold Utf8.encode in Hs.
    destruct (N.lt_ge_cases c 128) as [H|H].
    + rewrite (Hlt H). split.
      * intros Heq. constructor; [exact H|]. apply IH. lia.
      * intros Hall. inversion Hall as [|? ? _ Hrest]; subst.
        apply IH in Hrest. lia.
    + specialize (Hge H). split.
      * intros Heq. lia.
      * intros Hall. inversion Hall as [|? ? Hc _]; subst. lia.
Qed.

(** C2 as stated fails: the one-character string e-acute (code point 233,
    two bytes in UTF-8) is encoded with the prefix 1, not 2. *)
Lemma create_string_counts_characters :
  create_string (Some [233]) = lit "1:" ++ [233]
  /\ byte_length [233] = 2%Z
  /\ create_string (Some [233]) <> str_of_int (byte_length [233]) ++ lit ":" ++ [233].
Proof.
  split; [reflexivity|]. split; [reflexivity|].
  vm_compute. discriminate.
Qed.

(** C2, amended.  [create_string] gives the empty output for the empty
    string (and for [None]); for any other string it gives the number of
    its characters (code points) in decimal, a colon, and the string.  That
    number is the length in bytes of the UTF-8 encoding exactly when the
    string is ASCII. *)
Theorem create_string_length_prefix (s : str) :
  create_string None = []
  /\ create_string (Some []) = []
  /\ create_string (Some []) <> lit "0:"
  /\ (s <> [] -> create_string (Some s) = str_of_int (len s) ++ lit ":" ++ s)
  /\ (byte_length s = len s <-> ascii_only s).
Proof.
  split; [reflexivity|]. split; [reflexivity|]. split; [discriminate|].
  split; [|apply byte_length_ascii].
  intros Hs. destruct s as [|c s]; [contradiction|reflexivity].
Qed.

(** An ASCII atom, where the two lengths agree, and the decimal prefix. *)
Lemma create_string_length_prefix_witness :
  create_string (Some (lit "headline")) = str_of_int (len (lit "headline")) ++ lit ":" ++ lit "headline".
Proof.
  apply (proj1 (proj2 (proj2 (proj2 (create_string_length_prefix (lit "headline")))))).
  discriminate.
Defined.

(** C3.  A group without content is the empty output whatever its name,
    so it leaves no trace between its neighbours in the parent; an image
    with the empty caption has the canonical form (and so the bytes) of
    the image group that holds the URL group alone, which is also the form
    of an image built without a caption. *)
Theorem empty_group_vanishes (name : str) (before after url : str) :
  create_object name [] = []
  /\ create_object name (concat []) = []
  /\ before ++ create_object name [] ++ after = before ++ after
  /\ create_object (lit "caption") (create_string (Some [])) = []
  /\ Image.to_sexp (Image.mk url [])
     = create_object (lit "image")
                     (create_object (lit "url") (create_string (Some url)))
  /\ Image.to_sexp (Image.mk url []) = Image.to_sexp (Image.without_caption url)
  /\ Utf8.encode (Image.to_sexp (Image.mk url []))
     = Utf8.encode (create_object (lit "image")
                      (create_object (lit "url") (create_string (Some url)))).
Proof.
  assert (Himage : Image.to_sexp (Image.mk url [])
                   = create_object (lit "image")
                       (create_object (lit "url") (create_string (Some url)))).
  { unfold Image.to_sexp. simpl Image.url. simpl Image.caption.
    change (create_object (lit "caption") (create_string (Some []))) with (@nil N).
    rewrite app_nil_r. reflexivity. }
  repeat split; try reflexivity; try exact Himage.
  rewrite Himage. reflexivity.
Qed.

(** ** Further properties of the ledger *)

(** Every call of [process_url] goes one of three ways: a pattern tried by
    the lookup is outside the modelled syntax; or no rule resolves, and the
    call returns nothing and leaves the ledger as it was; or a rule
    resolves and the extractor is consulted. *)
Theorem process_url_cases (e : env) (url : str) (w : world) :
  process_url e url w = None
  \/ (exists w2, process_url e url w = Some ((None, None), w2) /\ self w2 = self w)
  \/ (exists rule w1 result w2,
         resolved e url w rule w1
         /\ process_url e url w = Some (result, w2)
         /\ snd result <> None).
Proof.
  destruct (find_matching_rule url w) as [[[rule|] w1]|] eqn:Hfind.
  - right. right.
    pose proof (resolved_match e url w rule w1 Hfind) as Hres.
    rewrite (process_url_resolved e url w w1 rule Hres).
    destruct (apply_rule_gives_inference e url w1 rule) as (result & w2 & Hrun & Hinf).
    exists rule, w1, result, w2.
    split; [exact Hres|]. split; [exact Hrun|exact Hinf].
  - destruct (eligible url) eqn:Hel.
    + right. right.
      pose proof (add_rule_run (rule_time e) default_pattern placeholder_hash
                    (lit "article") None w1) as Hadd.
      cbv zeta in Hadd.
      pose proof (resolved_default e url w _ _ _ Hfind Hel Hadd) as Hres.
      rewrite (process_url_resolved e url w _ _ Hres).
      match goal with
      | |- exists _ _ _ _, _ /\ apply_rule _ _ ?r ?w' = _ /\ _ =>
          destruct (apply_rule_gives_inference e url w' r) as (result & w2 & Hrun & Hinf)
      end.
      eexists. eexists. exists result, w2.
      split; [exact Hres|]. split; [exact Hrun|exact Hinf].
    + right. left.
      destruct (find_matching_rule_frame url w w1 None Hfind) as (Hs & _).
      unfold process_url, bind. rewrite Hfind, Hel.
      eexists. split; [reflexivity|]. exact Hs.
  - left. unfold process_url, bind. rewrite Hfind. reflexivity.
Qed.

(** When a registered rule matches, [process_url] works under that rule
    and registers nothing. *)
Theorem matched_rule_is_reused (e : env) (url : str) (w : world)
    (pre post : list Rule.t) (rule : Rule.t) :
  rules (self w) = pre ++ rule :: post ->
  Forall (misses url) pre ->
  hits url rule ->
  exists result w2,
    process_url e url w = Some (result, w2)
    /\ rules (self w2) = rules (self w)
    /\ exists inference,
         snd result = Some inference
         /\ Inference.script_hash inference = Rule.script_hash rule.
Proof.
  intros Hrules Hpre Hrule.
  pose (w1 := logged INFO (lit "Found matching rule for " ++ url) w).
  assert (Hfind : find_matching_rule url w = Some (Some rule, w1)).
  { unfold find_matching_rule, bind, read. rewrite Hrules.
    rewrite first_match_skips by exact Hpre. apply first_match_stops. exact Hrule. }
  rewrite (process_url_resolved e url w _ _ (resolved_match e url w _ _ Hfind)).
  destruct (extract e url) as [doc|message] eqn:Hex.
  - destruct (Article.hash_raises doc) as [message|] eqn:Hhash.
    + rewrite (apply_rule_unhashable e url w1 rule doc message Hex Hhash).
      eexists. eexists. split; [reflexivity|]. split; [reflexivity|].
      eexists. split; reflexivity.
    + rewrite (apply_rule_returned e url w1 rule doc Hex Hhash).
      eexists. eexists. split; [reflexivity|]. split; [reflexivity|].
      eexists. split; reflexivity.
  - rewrite (apply_rule_raised e url w1 rule message Hex).
    eexists. eexists. split; [reflexivity|]. split; [reflexivity|].
    eexists. split; reflexivity.
Qed.

(** After the default rule was registered for a BBC address, a second
    address that its pattern matches is processed without a new rule. *)
Lemma matched_rule_is_reused_witness :
  let w := World (mk (lit "src") [default_rule (lit "src") 1700000100] [] []) [] [] in
  exists result w2,
    process_url returning bbc_url w = Some (result, w2)
    /\ rules (self w2) = rules (self w)
    /\ exists inference,
         snd result = Some inference
         /\ Inference.script_hash inference
            = Rule.script_hash (default_rule (lit "src") 1700000100).
Proof.
  intros w.
  apply (matched_rule_is_reused returning bbc_url w []
           [] (default_rule (lit "src") 1700000100)).
  - reflexivity.
  - constructor.
  - vm_compute. reflexivity.
Defined.

(** A URL that every registered rule misses and that is not eligible is
    given up: the call returns neither document nor inference, registers
    and records nothing, and leaves a warning in the log after the note
    of the lookup. *)
Theorem unresolved_url_is_given_up (e : env) (url : str) (w : world) :
  Forall (misses url) (rules (self w)) ->
  eligible url = false ->
  process_url e url w
  = Some ((None, None),
          logged WARNING (lit "No rule available for URL: " ++ url)
            (logged INFO (lit "No matching rule found for " ++ url) w)).
Proof.
  intros Hall Hel. unfold process_url, bind.
  assert (Hfind : find_matching_rule url w
                  = Some (None, logged INFO (lit "No matching rule found for " ++ url) w)).
  { unfold find_matching_rule, bind, read. apply first_match_exhausts. exact Hall. }
  rewrite Hfind, Hel. reflexivity.
Qed.

(** An address outside the BBC on a ledger without rules. *)
Lemma unresolved_url_is_given_up_witness :
  process_url returning (lit "https://site.example/news/42") (fresh_world (lit "src"))
  = Some ((None, None),
          logged WARNING (lit "No rule available for URL: "
                          ++ lit "https://site.example/news/42")
            (logged INFO (lit "No matching rule found for "
                          ++ lit "https://site.example/news/42")
               (fresh_world (lit "src")))).
Proof.
  apply (unresolved_url_is_given_up returning (lit "https://site.example/news/42")
           (fresh_world (lit "src"))).
  - constructor.
  - vm_compute. reflexivity.
Defined.


(** ** The lines of an export *)



(** * More of the code *)

(** ** Decimal printing *)

Lemma lit_inj (a b : string) : lit a = lit b -> a = b.
Proof.
  revert b. induction a as [|x a IH]; intros [|y b] H; simpl in H;
    try discriminate; [reflexivity|].
  injection H as Hxy Hab. f_equal; [|apply IH; exact Hab].
  rewrite <- (ascii_N_embedding x), <- (ascii_N_embedding y), Hxy. reflexivity.
Qed.

Lemma to_int_proper (z : Z) :
  Z.to_int z <> Decimal.Pos Decimal.Nil /\ Z.to_int z <> Decimal.Neg Decimal.Nil.
Proof.
  destruct z as [|p|p]; simpl; split; try discriminate;
    intros H; injection H as H; exact (Unsigned.to_uint_nonnil p H).
Qed.

Lemma str_of_int_inj (a b : Z) : str_of_int a = str_of_int b -> a = b.
Proof.
  unfold str_of_int. intros H. apply lit_inj in H.
  apply DecimalZ.to_int_inj.
  destruct (to_int_proper a) as [Ha1 Ha2]. destruct (to_int_proper b) as [Hb1 Hb2].
  pose proof (NilZero.isi (Z.to_int a) Ha1 Ha2) as Ia.
  pose proof (NilZero.isi (Z.to_int b) Hb1 Hb2) as Ib.
  rewrite H in Ia. rewrite Ia in Ib. injection Ib as Ib. exact Ib.
Qed.

Lemma uint_digits (d : Decimal.uint) :
  Forall is_digit (lit (NilEmpty.string_of_uint d)).
Proof.
  induction d; simpl; constructor; auto; unfold is_digit; simpl; lia.
Qed.

Lemma str_of_int_digits (z : Z) : (0 <= z)%Z -> Forall is_digit (str_of_int z).
Proof.
  intros Hz. unfold str_of_int. destruct z as [|p|p]; [| |lia].
  - simpl. constructor; [unfold is_digit; lia|constructor].
  - simpl. unfold NilZero.string_of_uint.
    destruct (Pos.to_uint p) eqn:E; try (rewrite <- E; apply uint_digits).
    simpl. constructor; [unfold is_digit; lia|constructor].
Qed.

Lemma str_of_int_nonempty (z : Z) : str_of_int z <> [].
Proof.
  unfold str_of_int. intros H.
  assert (Hs : NilZero.string_of_int (Z.to_int z) = EmptyString)
    by (apply lit_inj; exact H).
  destruct (to_int_proper z) as [H1 H2].
  pose proof (NilZero.isi (Z.to_int z) H1 H2) as I.
  rewrite Hs in I. discriminate.
Qed.

(** ** Atoms and groups, continued *)

Lemma truthy_app (a b : str) : truthy (a ++ b) = truthy a || truthy b.
Proof. destruct a; reflexivity. Qed.

Lemma truthy_nonempty (s : str) : truthy s = true <-> s <> [].
Proof. destruct s; simpl; split; congruence. Qed.

Lemma create_string_truthy (s : str) : truthy (create_string (Some s)) = truthy s.
Proof.
  destruct s as [|c s]; [reflexivity|]. unfold create_string.
  rewrite !truthy_app. simpl. apply orb_true_r.
Qed.

Lemma create_object_truthy (name content : str) :
  truthy (create_object name content) = truthy content.
Proof. unfold create_object. destruct (truthy content); reflexivity. Qed.

Lemma create_object_full (name content : str) :
  truthy content = true ->
  create_object name content = lit "(" ++ create_string (Some name) ++ content ++ lit ")".
Proof. intros H. unfold create_object. rewrite H. reflexivity. Qed.

Lemma digits_without_colon (l : str) : Forall is_digit l -> ~ In 58 l.
Proof.
  induction 1 as [|c l Hc _ IH]; simpl; [tauto|].
  intros [E|Hin]; [unfold is_digit in Hc; lia | exact (IH Hin)].
Qed.

Lemma split_at_colon (a b x y : str) :
  ~ In 58 a -> ~ In 58 b -> a ++ 58 :: x = b ++ 58 :: y -> a = b /\ x = y.
Proof.
  revert b. induction a as [|c a IH]; intros [|d b] Ha Hb H; simpl in H.
  - injection H as H. auto.
  - injection H as Hd _. exfalso. apply Hb. left. symmetry. exact Hd.
  - injection H as Hc _. exfalso. apply Ha. left. exact Hc.
  - injection H as Hcd H.
    destruct (IH b) as [E1 E2]; auto.
    + intros Hin. apply Ha. right. exact Hin.
    + intros Hin. apply Hb. right. exact Hin.
    + subst. auto.
Qed.

Lemma split_at_length (a b x y : str) :
  length a = length b -> a ++ x = b ++ y -> a = b /\ x = y.
Proof.
  revert b. induction a as [|c a IH]; intros [|d b] Hlen H; simpl in *;
    try discriminate; [auto|].
  injection H as Hcd H. injection Hlen as Hlen.
  destruct (IH b Hlen H) as [E1 E2]. subst. auto.
Qed.

(** Atoms delimit themselves: when two non-empty atoms, each followed by
    anything, give the same text, the atoms hold the same string and what
    follows them is the same.  So a sequence of non-empty atoms can be read
    back in one way only. *)
Theorem create_string_self_delimiting (a b x y : str) :
  a <> [] -> b <> [] ->
  create_string (Some a) ++ x = create_string (Some b) ++ y ->
  a = b /\ x = y.
Proof.
  intros Ha Hb H.
  destruct a as [|c a]; [contradiction|]. destruct b as [|d b]; [contradiction|].
  unfold create_string in H. rewrite <- !app_assoc in H. simpl in H.
  apply split_at_colon in H.
  - destruct H as [Hlen H]. apply str_of_int_inj in Hlen.
    unfold len in Hlen. apply Nat2Z.inj in Hlen.
    exact (split_at_length (c :: a) (d :: b) x y Hlen H).
  - apply digits_without_colon, str_of_int_digits. unfold len. lia.
  - apply digits_without_colon, str_of_int_digits. unfold len. lia.
Qed.

(** Two atoms of a paragraph followed by the closing parenthesis. *)
Lemma create_string_self_delimiting_witness :
  lit "breaking" = lit "breaking" /\ lit "4:news)" = lit "4:news)".
Proof.
  apply (create_string_self_delimiting (lit "breaking") (lit "breaking")
           (lit "4:news)") (lit "4:news)")).
  - discriminate.
  - discriminate.
  - reflexivity.
Defined.

(** The canonical form of a record is never empty: it opens with the name
    of the record and the source group.  The canonical form of a document
    is never empty either, since its date group is always there; with an
    empty headline, an empty author and no body element it is the article
    group around the date group alone. *)
Theorem canonical_forms_are_never_empty (r : Rule.t) (i : Inference.t)
    (p : Perception.t) (a : Article.t) (date : Z) :
  startswith (lit "(4:rule(6:source|") (Rule.to_sexp r) = true
  /\ startswith (lit "(9:inference(6:source|") (Inference.to_sexp i) = true
  /\ startswith (lit "(10:perception(6:source|") (Perception.to_sexp p) = true
  /\ startswith (lit "(7:article") (Article.to_sexp a) = true
  /\ Article.to_sexp (Article.new [] date [] (ArticleBody.mk []))
     = lit "(7:article(4:date" ++ create_string (Some (str_of_int date)) ++ lit "))".
Proof.
  assert (Hdate : forall z, truthy (create_object (lit "date")
                                      (create_string (Some (str_of_int z)))) = true).
  { intros z. rewrite create_object_truthy, create_string_truthy.
    apply truthy_nonempty, str_of_int_nonempty. }
  split; [|split; [|split; [|split]]].
  - destruct r as [src ts pat sh ot sc]. unfold Rule.to_sexp. simpl.
    destruct (truthy_opt sc); reflexivity.
  - destruct i as [src ts url sh ot oh er sc ob]. unfold Inference.to_sexp. simpl.
    destruct (truthy_opt er), (truthy_opt sc), ob as [raw|];
      try destruct (truthy raw); reflexivity.
  - destruct p as [src ts url ot oh v]. reflexivity.
  - unfold Article.to_sexp. cbv zeta.
    rewrite create_object_full; [reflexivity|].
    rewrite !truthy_app, Hdate. apply orb_true_r.
  - unfold Article.to_sexp, Article.new. cbv zeta. simpl Article.headline.
    simpl Article.author. simpl Article.body. simpl Article.date.
    change (create_object (lit "headline") (create_string (Some []))) with (@nil N).
    change (create_object (lit "author") (create_string (Some []))) with (@nil N).
    change (ArticleBody.to_sexp (ArticleBody.mk [])) with (@nil N).
    rewrite app_nil_r. simpl app at 1.
    rewrite (create_object_full (lit "article")) by apply Hdate.
    rewrite (create_object_full (lit "date")).
    + simpl. rewrite <- !app_assoc. reflexivity.
    + change (truthy (create_string (Some (str_of_int date))) = true).
      rewrite create_string_truthy. apply truthy_nonempty, str_of_int_nonempty.
Qed.

(** ** Elements that leave no trace *)

Lemma fold_left_concat {A : Type} (f : A -> str) (l : list A) (acc : str) :
  fold_left (fun acc x => acc ++ f x) l acc = acc ++ concat (map f l).
Proof.
  revert acc. induction l as [|x l IH]; intros acc; simpl.
  - rewrite app_nil_r. reflexivity.
  - rewrite IH, <- app_assoc. reflexivity.
Qed.

Lemma create_object_empty (name content : str) :
  create_object name content = [] <-> content = [].
Proof.
  unfold create_object. destruct content as [|c content]; simpl; split;
    try reflexivity; discriminate.
Qed.

Lemma create_string_empty (s : str) : create_string (Some s) = [] <-> s = [].
Proof.
  split; [|intros ->; reflexivity].
  intros H. apply (f_equal truthy) in H. rewrite create_string_truthy in H.
  destruct s; [reflexivity|discriminate].
Qed.

Lemma paragraph_to_sexp_concat (p : Paragraph.t) :
  Paragraph.to_sexp p
  = create_object (lit "paragraph") (concat (map item_to_sexp (Paragraph.content p))).
Proof.
  unfold Paragraph.to_sexp. f_equal.
  transitivity (fold_left (fun acc x => acc ++ item_to_sexp x) (Paragraph.content p) []).
  - generalize (@nil N) as acc.
    induction (Paragraph.content p) as [|i l IH]; intros acc; [reflexivity|].
    simpl. rewrite <- IH. destruct i; reflexivity.
  - apply (fold_left_concat item_to_sexp (Paragraph.content p) []).
Qed.

Lemma body_to_sexp_concat (b : ArticleBody.t) :
  ArticleBody.to_sexp b
  = create_object (lit "body")
      (concat (map ArticleBody.element_to_sexp (ArticleBody.elements b))).
Proof.
  unfold ArticleBody.to_sexp. f_equal.
  apply (fold_left_concat ArticleBody.element_to_sexp (ArticleBody.elements b) []).
Qed.

Lemma blank_item_spec (i : Paragraph.item) :
  item_to_sexp i = [] <-> blank_item i = true.
Proof.
  destruct i as [s|[url]]; cbn [item_to_sexp blank_item Link.url].
  - rewrite create_string_empty. destruct s; simpl; split; congruence.
  - unfold Link.to_sexp. cbn [Link.url].
    rewrite !create_object_empty, create_string_empty.
    destruct url; simpl; split; congruence.
Qed.

Lemma concat_empty (l : list str) : concat l = [] <-> Forall (fun s => s = []) l.
Proof.
  induction l as [|s l IH]; simpl.
  - split; [constructor|reflexivity].
  - split.
    + intros H. apply app_eq_nil in H as [H1 H2]. constructor; [exact H1|apply IH, H2].
    + intros H. inversion H as [|? ? H1 H2]; subst. simpl. apply IH, H2.
Qed.

Lemma blank_spec (e : ArticleBody.element) :
  ArticleBody.element_to_sexp e = [] <-> blank e = true.
Proof.
  destruct e as [p|[text]|[url caption]];
    cbn [ArticleBody.element_to_sexp blank Subheading.text Image.url Image.caption].
  - rewrite paragraph_to_sexp_concat, create_object_empty, concat_empty.
    rewrite forallb_forall, Forall_map, Forall_forall.
    split; intros H i Hi; apply blank_item_spec, H, Hi.
  - unfold Subheading.to_sexp. cbn [Subheading.text].
    rewrite create_object_empty, create_string_empty.
    destruct text; simpl; split; congruence.
  - unfold Image.to_sexp. cbn [Image.url Image.caption].
    rewrite create_object_empty. split.
    + intros H. apply app_eq_nil in H as [H1 H2].
      apply (proj1 (create_object_empty _ _)) in H1.
      apply (proj1 (create_string_empty _)) in H1.
      apply (proj1 (create_object_empty _ _)) in H2.
      apply (proj1 (create_string_empty _)) in H2. subst. reflexivity.
    + intros H. apply andb_true_iff in H as [H1 H2].
      destruct url, caption; try discriminate. reflexivity.
Qed.

(** An element that holds no character (a paragraph without items or with
    empty items only, a subheading with the empty text, an image with
    neither address nor caption) has the empty canonical form, and a
    document with such an element anywhere in its body has the canonical
    form and the hash of the document without it. *)
Theorem blank_elements_leave_no_trace (headline author : str) (date : Z)
    (before after : list ArticleBody.element) (e : ArticleBody.element) :
  blank e = true ->
  ArticleBody.element_to_sexp e = []
  /\ Article.to_sexp (Article.new headline date author
                        (ArticleBody.mk (before ++ e :: after)))
     = Article.to_sexp (Article.new headline date author
                          (ArticleBody.mk (before ++ after)))
  /\ Article.hash (Article.new headline date author
                     (ArticleBody.mk (before ++ e :: after)))
     = Article.hash (Article.new headline date author
                       (ArticleBody.mk (before ++ after))).
Proof.
  intros Hblank. apply blank_spec in Hblank.
  assert (Hbody : ArticleBody.to_sexp (ArticleBody.mk (before ++ e :: after))
                  = ArticleBody.to_sexp (ArticleBody.mk (before ++ after))).
  { rewrite !body_to_sexp_concat. simpl ArticleBody.elements.
    rewrite !map_app, !concat_app. simpl. rewrite Hblank. reflexivity. }
  split; [exact Hblank|].
  assert (Hform : Article.to_sexp (Article.new headline date author
                                     (ArticleBody.mk (before ++ e :: after)))
                  = Article.to_sexp (Article.new headline date author
                                       (ArticleBody.mk (before ++ after)))).
  { unfold Article.to_sexp, Article.new. simpl Article.body. rewrite Hbody. reflexivity. }
  split; [exact Hform|]. unfold Article.hash. rewrite Hform. reflexivity.
Qed.

(** A paragraph whose one item is the empty text, between two subheadings. *)
Lemma blank_elements_leave_no_trace_witness :
  let e := ArticleBody.P (Paragraph.mk [Paragraph.Text []]) in
  let before := [ArticleBody.H (Subheading.mk (lit "One"))] in
  let after := [ArticleBody.H (Subheading.mk (lit "Two"))] in
  ArticleBody.element_to_sexp e = []
  /\ Article.to_sexp (Article.new (lit "H") 1700000000 (lit "A")
                        (ArticleBody.mk (before ++ e :: after)))
     = Article.to_sexp (Article.new (lit "H") 1700000000 (lit "A")
                          (ArticleBody.mk (before ++ after)))
  /\ Article.hash (Article.new (lit "H") 1700000000 (lit "A")
                     (ArticleBody.mk (before ++ e :: after)))
     = Article.hash (Article.new (lit "H") 1700000000 (lit "A")
                       (ArticleBody.mk (before ++ after))).
Proof.
  intros e before after.
  apply (blank_elements_leave_no_trace (lit "H") (lit "A") 1700000000 before after e).
  reflexivity.
Defined.

(** ** The shape of a hash *)

Lemma digest_length (data : list byte) : length (Sha256.digest data) = 32%nat.
Proof.
  unfold Sha256.digest. cbv zeta. rewrite length_map.
  generalize (Sha256.blocks
                (length (Sha256.pad (map Byte.to_N data)) / 64) Sha256.initial
                (Sha256.pad (map Byte.to_N data))).
  intros h. reflexivity.
Qed.

Lemma b64encode_32 (l : list N) :
  length l = 32%nat ->
  length (Base64.b64encode_N l) = 44%nat
  /\ last (map Byte.to_N (Base64.b64encode_N l)) 0 = 61.
Proof.
  intros H.
  do 32 (destruct l as [|? l]; [discriminate|]).
  destruct l; [|discriminate].
  split; reflexivity.
Qed.

Lemma base64_of_digest (data : list byte) :
  length (Utf8.decode_ascii (Base64.b64encode (Sha256.digest data))) = 44%nat
  /\ last (Utf8.decode_ascii (Base64.b64encode (Sha256.digest data))) 0 = 61.
Proof.
  unfold Utf8.decode_ascii, Base64.b64encode. rewrite length_map.
  apply b64encode_32. rewrite length_map. apply digest_length.
Qed.


(** ** What the default rule covers *)

Lemma startswith_app (prefix s : str) :
  startswith prefix s = true <-> exists rest, s = prefix ++ rest.
Proof.
  revert s. induction prefix as [|c prefix IH]; intros s; simpl.
  - split; [intros _; exists s; reflexivity | reflexivity].
  - destruct s as [|d s].
    + split; [discriminate | intros [rest H]; discriminate].
    + rewrite andb_true_iff, N.eqb_eq, IH. split.
      * intros [-> [rest ->]]. exists rest. reflexivity.
      * intros [rest H]. injection H as -> ->. split; [reflexivity|].
        exists rest. reflexivity.
Qed.

Lemma matches_at_start_longer (r : Re.regex) (s rest : str) :
  Re.matches_at_start r s = true -> Re.matches_at_start r (s ++ rest) = true.
Proof.
  rewrite !matches_at_start_denotes. intros (prefix & tail & -> & H).
  exists prefix, (tail ++ rest). split; [symmetry; apply app_assoc | exact H].
Qed.

Ltac invert_denotes :=
  repeat match goal with
         | H : Re.denotes (Re.Seq _ _) _ |- _ => inversion H; subst; clear H
         | H : Re.denotes (Re.Chr _) _ |- _ => inversion H; subst; clear H
         | H : Re.denotes (Re.Alt _ _) _ |- _ => inversion H; subst; clear H
         | H : Re.denotes Re.Eps _ |- _ => inversion H; subst; clear H
         end.

Lemma re_match_default (url : str) :
  Re.re_match default_pattern url = Some (covered url).
Proof.
  unfold Re.re_match.
  destruct (Re.compile default_pattern) as [r|] eqn:Hr; [|vm_compute in Hr; discriminate].
  vm_compute in Hr. injection Hr as <-. f_equal.
  apply eq_true_iff_eq. split.
  - intros H. apply matches_at_start_denotes in H as (prefix & rest & -> & H).
    invert_denotes; reflexivity.
  - intros H. unfold covered in H.
    repeat (apply orb_true_iff in H as [H|H]);
      apply startswith_app in H as [rest ->];
      apply matches_at_start_longer; vm_compute; reflexivity.
Qed.

(** A rule with the default pattern matches a URL exactly when the URL
    starts with [http://] or [https://] followed by [bbc.com/] or
    [www.bbc.com/]; on every other URL it misses. *)
Theorem default_pattern_coverage (source : str) (now : Z) (url : str) :
  (hits url (default_rule source now) <-> covered url = true)
  /\ (misses url (default_rule source now) <-> covered url = false).
Proof.
  unfold hits, misses. simpl Rule.pattern. rewrite re_match_default.
  split; split; intros H; congruence.
Qed.

(** ** What a call of [process_url] changes *)

(** Every way [process_url] can return, with what it leaves behind. *)
Lemma process_url_outcome (e : env) (url : str) (w w2 : world)
    (result : option Article.t * option Inference.t) :
  process_url e url w = Some (result, w2) ->
  source_id (self w2) = source_id (self w)
  /\ perceptions (self w2) = perceptions (self w)
  /\ files w2 = files w
  /\ (rules (self w2) = rules (self w)
      \/ (Forall (misses url) (rules (self w)) /\ eligible url = true
          /\ rules (self w2)
             = rules (self w) ++ [default_rule (source_id (self w)) (rule_time e)]))
  /\ match snd result with
     | None =>
         fst result = None /\ self w2 = self w
         /\ Forall (misses url) (rules (self w)) /\ eligible url = false
     | Some i =>
         inferences (self w2) = inferences (self w) ++ [i]
         /\ Inference.source i = source_id (self w)
         /\ Inference.url i = url
         /\ Inference.timestamp i = inference_time e
         /\ exists rule,
              In rule (rules (self w2))
              /\ Inference.script_hash i = Rule.script_hash rule
              /\ match fst result with
                 | Some doc =>
                     extract e url = Returned doc
                     /\ Article.hash_raises doc = None
                     /\ Inference.error i = None
                     /\ Inference.object_type i = Some (Rule.object_type rule)
                     /\ Inference.object_hash i = Some (Article.hash doc)
                 | None =>
                     exists message,
                       Inference.error i = Some message
                       /\ Inference.object_hash i = None
                       /\ match extract e url with
                          | Raised raised =>
                              raised = message /\ Inference.object_type i = None
                          | Returned doc =>
                              Article.hash_raises doc = Some message
                              /\ Inference.object_type i = Some (Rule.object_type rule)
                          end
                 end
     end.
Proof.
  intros Hrun.
  assert (Happly : forall rule w1,
             resolved e url w rule w1 ->
             apply_rule e url rule w1 = Some (result, w2) ->
             source_id (self w2) = source_id (self w)
             /\ perceptions (self w2) = perceptions (self w)
             /\ files w2 = files w
             /\ rules (self w2) = rules (self w1)
             /\ match snd result with
                | None => False
                | Some i =>
                    inferences (self w2) = inferences (self w) ++ [i]
                    /\ Inference.source i = source_id (self w)
                    /\ Inference.url i = url
                    /\ Inference.timestamp i = inference_time e
                    /\ exists rule,
                         In rule (rules (self w2))
                         /\ Inference.script_hash i = Rule.script_hash rule
                         /\ match fst result with
                            | Some doc =>
                                extract e url = Returned doc
                                /\ Article.hash_raises doc = None
                                /\ Inference.error i = None
                                /\ Inference.object_type i = Some (Rule.object_type rule)
                                /\ Inference.object_hash i = Some (Article.hash doc)
                            | None =>
                                exists message,
                                  Inference.error i = Some message
                                  /\ Inference.object_hash i = None
                                  /\ match extract e url with
                                     | Raised raised =>
                                         raised = message /\ Inference.object_type i = None
                                     | Returned doc =>
                                         Article.hash_raises doc = Some message
                                         /\ Inference.object_type i = Some (Rule.object_type rule)
                                     end
                            end
                end).
  { intros rule w1 Hres Happ.
    destruct (resolved_frame e url w w1 rule Hres) as (Hsrc & Hinf & Hper & Hfiles & Hin).
    destruct (extract e url) as [doc|message] eqn:Hex.
    - destruct (Article.hash_raises doc) as [message|] eqn:Hhash.
      + rewrite (apply_rule_unhashable e url w1 rule doc message Hex Hhash) in Happ.
        injection Happ as <- <-. simpl. rewrite Hsrc, Hinf, Hper, Hfiles.
        repeat split. exists rule. split; [exact Hin|]. split; [reflexivity|].
        exists message. repeat split.
      + rewrite (apply_rule_returned e url w1 rule doc Hex Hhash) in Happ.
        injection Happ as <- <-. simpl. rewrite Hsrc, Hinf, Hper, Hfiles.
        repeat split. exists rule. repeat split; assumption.
    - rewrite (apply_rule_raised e url w1 rule message Hex) in Happ.
      injection Happ as <- <-. simpl. rewrite Hsrc, Hinf, Hper, Hfiles.
      repeat split. exists rule. split; [exact Hin|]. split; [reflexivity|].
      exists message. repeat split. }
  destruct (find_matching_rule url w) as [[[rule|] w1]|] eqn:Hfind.
  - pose proof (resolved_match e url w rule w1 Hfind) as Hres.
    rewrite (process_url_resolved e url w w1 rule Hres) in Hrun.
    destruct (Happly rule w1 Hres Hrun) as (H1 & H2 & H3 & H4 & H5).
    destruct (find_matching_rule_frame url w w1 _ Hfind) as (Hs & _).
    rewrite Hs in H4.
    split; [exact H1|]. split; [exact H2|]. split; [exact H3|].
    split; [left; exact H4|].
    destruct (snd result); [exact H5|contradiction].
  - destruct (find_matching_rule_frame url w w1 _ Hfind) as (Hs & Hf & Hall).
    destruct (eligible url) eqn:Hel.
    + pose proof (add_rule_run (rule_time e) default_pattern placeholder_hash
                    (lit "article") None w1) as Hadd.
      cbv zeta in Hadd.
      pose proof (resolved_default e url w _ _ _ Hfind Hel Hadd) as Hres.
      rewrite (process_url_resolved e url w _ _ Hres) in Hrun.
      destruct (Happly _ _ Hres Hrun) as (H1 & H2 & H3 & H4 & H5).
      simpl in H4. rewrite Hs in H4.
      split; [exact H1|]. split; [exact H2|]. split; [exact H3|].
      split; [right; split; [exact Hall|split; [reflexivity|exact H4]]|].
      destruct (snd result); [exact H5|contradiction].
    + unfold process_url, bind in Hrun. rewrite Hfind, Hel in Hrun.
      injection Hrun as <- <-. simpl. rewrite Hs, Hf.
      repeat split; auto.
  - unfold process_url, bind in Hrun. rewrite Hfind in Hrun. discriminate.
Qed.

Lemma first_match_returns (rules : list Rule.t) (url : str) (w : world) :
  Forall compiles rules ->
  exists found w1, first_match rules url w = Some (found, w1).
Proof.
  induction 1 as [|rule rest Hrule _ IH]; simpl.
  - eexists. eexists. reflexivity.
  - unfold compiles in Hrule. unfold Re.re_match.
    destruct (Re.compile (Rule.pattern rule)) as [r|]; [|contradiction].
    destruct (Re.matches_at_start r url).
    + eexists. eexists. reflexivity.
    + exact IH.
Qed.

Lemma default_rule_compiles (source : str) (now : Z) : compiles (default_rule source now).
Proof. unfold compiles. simpl. vm_compute. discriminate. Qed.

(** When every registered pattern is a regular expression of the
    modelled syntax, [process_url] returns whatever the extractor does,
    and the patterns registered afterwards are again of that syntax. *)
Lemma process_url_returns (e : env) (url : str) (w : world) :
  Forall compiles (rules (self w)) ->
  exists result w2,
    process_url e url w = Some (result, w2)
    /\ Forall compiles (rules (self w2)).
Proof.
  intros Hall.
  destruct (first_match_returns (rules (self w)) url w Hall) as (found & w1 & Hfirst).
  assert (Hfind : find_matching_rule url w = Some (found, w1)) by exact Hfirst.
  destruct (find_matching_rule_frame url w w1 found Hfind) as (Hs & _).
  destruct found as [rule|].
  - pose proof (resolved_match e url w rule w1 Hfind) as Hres.
    rewrite (process_url_resolved e url w w1 rule Hres).
    destruct (apply_rule_keeps_rules e url w1 rule) as (result & w2 & Hrun & Hrules & _).
    exists result, w2. split; [exact Hrun|]. rewrite Hrules, Hs. exact Hall.
  - destruct (eligible url) eqn:Hel.
    + pose proof (add_rule_run (rule_time e) default_pattern placeholder_hash
                    (lit "article") None w1) as Hadd.
      cbv zeta in Hadd.
      pose proof (resolved_default e url w _ _ _ Hfind Hel Hadd) as Hres.
      rewrite (process_url_resolved e url w _ _ Hres).
      match goal with
      | |- exists _ _, apply_rule _ _ ?r ?w' = _ /\ _ =>
          destruct (apply_rule_keeps_rules e url w' r)
            as (result & w2 & Hrun & Hrules & _)
      end.
      exists result, w2. split; [exact Hrun|]. rewrite Hrules. simpl. rewrite Hs.
      apply Forall_app. split; [exact Hall|].
      constructor; [apply (default_rule_compiles (source_id (self w)))|constructor].
    + unfold process_url, bind. rewrite Hfind, Hel.
      eexists. eexists. split; [reflexivity|]. simpl. rewrite Hs. exact Hall.
Qed.

(** A call of [process_url] that returns has appended at most one rule
    and at most one inference, the one it returns; it has removed or
    changed no record, and has touched neither the perceptions, nor the
    source identifier, nor the files.  A call that returns no inference
    has left the ledger as it was. *)
Theorem process_url_appends_only (e : env) (url : str) (w w2 : world)
    (result : option Article.t * option Inference.t) :
  process_url e url w = Some (result, w2) ->
  (exists new_rules,
      rules (self w2) = rules (self w) ++ new_rules
      /\ (length new_rules <= 1)%nat
      /\ (snd result = None -> new_rules = []))
  /\ inferences (self w2)
     = inferences (self w) ++ match snd result with Some i => [i] | None => [] end
  /\ perceptions (self w2) = perceptions (self w)
  /\ source_id (self w2) = source_id (self w)
  /\ files w2 = files w
  /\ (snd result = None -> fst result = None).
Proof.
  intros Hrun.
  destruct (process_url_outcome e url w w2 result Hrun)
    as (Hsrc & Hper & Hfiles & Hrules & Hres).
  destruct (snd result) as [i|] eqn:Hsnd.
  - destruct Hres as (Hinf & _).
    split; [|repeat split; auto; discriminate].
    destruct Hrules as [-> | (_ & _ & ->)].
    + exists []. rewrite app_nil_r.
      split; [reflexivity|]. split; [apply Nat.le_0_l | discriminate].
    + eexists. split; [reflexivity|]. split; [apply Nat.le_refl | discriminate].
  - destruct Hres as (Hfst & Hself & _).
    split; [|rewrite Hself, app_nil_r; repeat split; auto].
    exists []. rewrite Hself, app_nil_r.
    split; [reflexivity|]. split; [apply Nat.le_0_l | reflexivity].
Qed.

(** The sample document extracted for a BBC address on a fresh ledger. *)
Lemma process_url_appends_only_witness :
  exists result w2,
    process_url returning bbc_url (fresh_world (lit "src")) = Some (result, w2)
    /\ (exists new_rules,
           rules (self w2) = rules (self (fresh_world (lit "src"))) ++ new_rules
           /\ (length new_rules <= 1)%nat
           /\ (snd result = None -> new_rules = []))
    /\ inferences (self w2)
       = inferences (self (fresh_world (lit "src")))
         ++ match snd result with Some i => [i] | None => [] end
    /\ perceptions (self w2) = perceptions (self (fresh_world (lit "src")))
    /\ source_id (self w2) = source_id (self (fresh_world (lit "src")))
    /\ files w2 = files (fresh_world (lit "src"))
    /\ (snd result = None -> fst result = None).
Proof.
  eexists. eexists. split; [vm_compute; reflexivity|].
  apply (process_url_appends_only returning bbc_url (fresh_world (lit "src"))).
  vm_compute. reflexivity.
Defined.

(** What comes back from [process_url] agrees with what was recorded: a
    returned inference carries the ledger's source identifier, the URL, and
    the script hash of a rule that is registered when the call returns.
    With a document, the extractor returned it, its hashing did not raise,
    and the inference has no error, an object type and the hash of that
    document.  Without a document the inference has an error and no
    object hash; the error is the message of the extractor's exception,
    and then the object type is unset, or the message of the exception
    raised when the returned document was hashed, and then the object
    type is set. *)
Theorem returned_inference_is_consistent (e : env) (url : str) (w w2 : world)
    (doc : option Article.t) (i : Inference.t) :
  process_url e url w = Some ((doc, Some i), w2) ->
  last (inferences (self w2)) i = i
  /\ In i (inferences (self w2))
  /\ Inference.source i = source_id (self w2)
  /\ Inference.url i = url
  /\ (exists rule,
         In rule (rules (self w2))
         /\ Inference.script_hash i = Rule.script_hash rule)
  /\ match doc with
     | Some d =>
         extract e url = Returned d
         /\ Article.hash_raises d = None
         /\ Inference.error i = None
         /\ Inference.object_hash i = Some (Article.hash d)
         /\ Inference.object_type i <> None
     | None =>
         Inference.error i <> None
         /\ Inference.object_hash i = None
         /\ match extract e url with
            | Raised message =>
                Inference.error i = Some message
                /\ Inference.object_type i = None
            | Returned d =>
                Inference.error i = Article.hash_raises d
                /\ Inference.object_type i <> None
            end
     end.
Proof.
  intros Hrun.
  destruct (process_url_outcome e url w w2 _ Hrun)
    as (Hsrc & _ & _ & _ & Hinf & Hs & Hu & _ & rule & Hin & Hsh & Hdoc).
  simpl in *. rewrite Hinf, Hsrc.
  split; [apply last_last|]. split; [apply in_or_app; right; left; reflexivity|].
  split; [exact Hs|]. split; [exact Hu|].
  split; [exists rule; auto|].
  destruct doc as [d|].
  - destruct Hdoc as (Hex & Hhash & He & Ht & Hh). rewrite He, Hh, Ht.
    repeat split; auto. discriminate.
  - destruct Hdoc as (message & He & Hh & Hpath). rewrite He, Hh.
    split; [discriminate|]. split; [reflexivity|].
    destruct (extract e url) as [d|raised].
    + destruct Hpath as (Hhash & Ht). rewrite Hhash, Ht.
      split; [reflexivity|discriminate].
    + destruct Hpath as (-> & Ht). split; [reflexivity|exact Ht].
Qed.

(** The extractor raises with the message [timeout]. *)
Lemma returned_inference_is_consistent_witness :
  let i := Inference.mk (lit "src") 1700000101 bbc_url placeholder_hash
                        None None (Some (lit "timeout")) None None in
  exists w2,
    process_url (raising (lit "timeout")) bbc_url (fresh_world (lit "src"))
    = Some ((None, Some i), w2)
    /\ last (inferences (self w2)) i = i
    /\ In i (inferences (self w2))
    /\ Inference.source i = source_id (self w2)
    /\ Inference.url i = bbc_url
    /\ (exists rule,
           In rule (rules (self w2))
           /\ Inference.script_hash i = Rule.script_hash rule)
    /\ Inference.error i <> None
    /\ Inference.object_hash i = None
    /\ Inference.error i = Some (lit "timeout")
    /\ Inference.object_type i = None.
Proof.
  intros i. eexists. split; [vm_compute; reflexivity|].
  apply (returned_inference_is_consistent (raising (lit "timeout")) bbc_url
           (fresh_world (lit "src")) _ None i).
  vm_compute. reflexivity.
Defined.

(** ** One source for the whole ledger *)

Lemma add_perception_run (now : Z) (url object_type object_hash : str)
    (valid : bool) (w : world) :
  let perception :=
    Perception.mk (source_id (self w)) now url object_type object_hash valid in
  add_perception now url object_type object_hash valid w
  = Some (perception,
          logged INFO (lit "Added perception for " ++ url ++ lit ": valid="
                       ++ (if valid then lit "True" else lit "False"))
            (World (mk (source_id (self w)) (rules (self w)) (inferences (self w))
                       (perceptions (self w) ++ [perception]))
                   (log w) (files w))).
Proof. reflexivity. Qed.

Lemma init_source_id (source_id : option str) (clock_text : str)
    (log : list (level * str)) (files : list (str * str)) :
  PCSISystem.source_id (self (init source_id clock_text log files)) <> []
  /\ (truthy_opt source_id = true ->
      Some (PCSISystem.source_id (self (init source_id clock_text log files)))
      = source_id)
  /\ (truthy_opt source_id = false ->
      length (PCSISystem.source_id (self (init source_id clock_text log files)))
      = 44%nat).
Proof.
  pose proof (base64_of_digest (Utf8.encode clock_text)) as [Hlen _].
  assert (Hinit : PCSISystem.source_id (self (init source_id clock_text log files))
                  = if truthy_opt source_id then format_opt source_id
                    else Utf8.decode_ascii
                           (Base64.b64encode (Sha256.digest (Utf8.encode clock_text))))
    by reflexivity.
  rewrite Hinit. clear Hinit.
  destruct source_id as [[|c s]|]; cbn [truthy_opt truthy format_opt].
  - split; [intros H; rewrite H in Hlen; discriminate|].
    split; [discriminate | intros _; exact Hlen].
  - split; [discriminate|]. split; [reflexivity | discriminate].
  - split; [intros H; rewrite H in Hlen; discriminate|].
    split; [discriminate | intros _; exact Hlen].
Qed.

Lemma process_url_same_source (e : env) (url : str) (w w2 : world)
    (result : option Article.t * option Inference.t) :
  same_source (self w) ->
  process_url e url w = Some (result, w2) ->
  same_source (self w2).
Proof.
  intros (Hr & Hi & Hp) Hrun.
  destruct (process_url_outcome e url w w2 result Hrun)
    as (Hsrc & Hper & _ & Hrules & Hres).
  unfold same_source. rewrite Hsrc, Hper. split; [|split; [|exact Hp]].
  - destruct Hrules as [-> | (_ & _ & ->)]; [exact Hr|].
    apply Forall_app. split; [exact Hr|]. constructor; [reflexivity|constructor].
  - destruct (snd result) as [i|].
    + destruct Hres as (-> & Hs & _).
      apply Forall_app. split; [exact Hi|]. constructor; [exact Hs|constructor].
    + destruct Hres as (_ & -> & _). exact Hi.
Qed.

(** A ledger has one source identifier, never empty: the one supplied to
    the constructor, or 44 generated characters when none (or the empty
    one) is supplied.  Every record that [add_rule], [process_url] and
    [add_perception] append carries it, so a ledger whose records all
    carry its source identifier stays so. *)
Theorem ledger_keeps_one_source :
  (forall supplied clock_text log files,
      let w := init supplied clock_text log files in
      source_id (self w) <> []
      /\ (truthy_opt supplied = true -> Some (source_id (self w)) = supplied)
      /\ (truthy_opt supplied = false -> length (source_id (self w)) = 44%nat)
      /\ same_source (self w))
  /\ (forall now pattern script_hash object_type script w rule w2,
         same_source (self w) ->
         add_rule now pattern script_hash object_type script w = Some (rule, w2) ->
         same_source (self w2) /\ source_id (self w2) = source_id (self w))
  /\ (forall e url w result w2,
         same_source (self w) ->
         process_url e url w = Some (result, w2) ->
         same_source (self w2) /\ source_id (self w2) = source_id (self w))
  /\ (forall now url object_type object_hash valid w perception w2,
         same_source (self w) ->
         add_perception now url object_type object_hash valid w = Some (perception, w2) ->
         same_source (self w2) /\ source_id (self w2) = source_id (self w)).
Proof.
  split; [|split; [|split]].
  - intros supplied clock_text log files w.
    destruct (init_source_id supplied clock_text log files) as (H1 & H2 & H3).
    split; [exact H1|]. split; [exact H2|]. split; [exact H3|].
    repeat split; constructor.
  - intros now pattern script_hash object_type script w rule w2 (Hr & Hi & Hp) Hadd.
    rewrite add_rule_run in Hadd. injection Hadd as <- <-. simpl.
    split; [|reflexivity]. repeat split; auto.
    apply Forall_app. split; [exact Hr|]. constructor; [reflexivity|constructor].
  - intros e url w result w2 Hsame Hrun.
    split; [exact (process_url_same_source e url w w2 result Hsame Hrun)|].
    destruct (process_url_outcome e url w w2 result Hrun) as (Hsrc & _). exact Hsrc.
  - intros now url object_type object_hash valid w perception w2 (Hr & Hi & Hp) Hadd.
    rewrite add_perception_run in Hadd. injection Hadd as <- <-. simpl.
    split; [|reflexivity]. repeat split; auto.
    apply Forall_app. split; [exact Hp|]. constructor; [reflexivity|constructor].
Qed.

(** A ledger built without a source identifier, then one URL processed. *)
Lemma ledger_keeps_one_source_witness :
  let w := init None (lit "1700000000.123456") [] [] in
  exists result w2,
    process_url returning bbc_url w = Some (result, w2)
    /\ same_source (self w2) /\ source_id (self w2) = source_id (self w).
Proof.
  intros w.
  destruct (process_url_returns returning bbc_url w) as (result & w2 & Hrun & _).
  { constructor. }
  exists result, w2. split; [exact Hrun|].
  apply (proj1 (proj2 (proj2 ledger_keeps_one_source)) returning bbc_url w result w2).
  - repeat split; constructor.
  - exact Hrun.
Defined.

(** ** The loop of [main] *)







(** ** What the extractor builds *)

Lemma str_eqb_eq (a b : str) : str_eqb a b = true <-> a = b.
Proof.
  revert b. induction a as [|x a IH]; intros [|y b]; simpl;
    try (split; [discriminate | discriminate]); [split; reflexivity|].
  rewrite andb_true_iff, N.eqb_eq, IH. split.
  - intros [-> ->]. reflexivity.
  - intros H. injection H as -> ->. auto.
Qed.

Lemma lstrip_head (s : str) :
  match lstrip s with [] => True | c :: _ => isspace c = false end.
Proof.
  induction s as [|c s IH]; simpl; [exact I|].
  destruct (isspace c) eqn:E; [exact IH | exact E].
Qed.

Lemma lstrip_fixed (s : str) :
  match s with [] => True | c :: _ => isspace c = false end -> lstrip s = s.
Proof. destruct s as [|c s]; simpl; [reflexivity|]. intros ->. reflexivity. Qed.

Lemma lstrip_suffix (s : str) : exists spaces, s = spaces ++ lstrip s.
Proof.
  induction s as [|c s [spaces IH]]; simpl; [exists []; reflexivity|].
  destruct (isspace c).
  - exists (c :: spaces). simpl. f_equal. exact IH.
  - exists []. reflexivity.
Qed.

Lemma lstrip_keeps_last (s : str) :
  match rev s with [] => True | c :: _ => isspace c = false end ->
  match rev (lstrip s) with [] => True | c :: _ => isspace c = false end.
Proof.
  intros H. destruct (lstrip_suffix s) as [spaces E].
  destruct (lstrip s) as [|c rest] eqn:El; [exact I|].
  rewrite E, rev_app_distr in H.
  destruct (rev (c :: rest)) as [|d tail] eqn:Er; [exact I | exact H].
Qed.

Lemma strip_trimmed (s : str) : trimmed (strip s).
Proof.
  unfold trimmed, strip. rewrite rev_involutive.
  split; [|apply lstrip_head].
  pose proof (lstrip_keeps_last (rev (lstrip s))) as H.
  rewrite rev_involutive in H. apply H. apply lstrip_head.
Qed.

Lemma strip_fixed (s : str) : trimmed s -> strip s = s.
Proof.
  intros [H1 H2]. unfold strip. rewrite (lstrip_fixed s H1).
  rewrite (lstrip_fixed (rev s) H2). apply rev_involutive.
Qed.

Lemma absolute_starts_with_http (url : str) :
  startswith (lit "http") (BBCArticleExtractor.absolute url) = true.
Proof.
  unfold BBCArticleExtractor.absolute.
  destruct (startswith (lit "http") url) eqn:E; cbn [negb]; [exact E|].
  destruct (startswith (lit "/") url) eqn:E2; reflexivity.
Qed.

Lemma absolute_nonempty (url : str) : BBCArticleExtractor.absolute url <> [].
Proof.
  intros H. pose proof (absolute_starts_with_http url) as Hs.
  rewrite H in Hs. discriminate.
Qed.

Lemma texts_of_app (a b : list Paragraph.item) :
  texts_of (a ++ b) = texts_of a ++ texts_of b.
Proof. unfold texts_of. rewrite map_app, concat_app. reflexivity. Qed.

Lemma links_of_app (a b : list Paragraph.item) :
  links_of (a ++ b) = links_of a ++ links_of b.
Proof. unfold links_of. apply flat_map_app. Qed.

Section TextLoop.

Import BBCArticleExtractor.

Lemma kept_text (s : str) : truthy s = true -> kept (Paragraph.Text s).
Proof. unfold kept. simpl. intros ->. reflexivity. Qed.

Lemma kept_link (url : str) : kept (Paragraph.Ref (Link.mk (absolute url))).
Proof.
  unfold kept. simpl. destruct (absolute url) eqn:E; [|reflexivity].
  exfalso. exact (absolute_nonempty url E).
Qed.

(** One turn of the loop keeps what the loop promises. *)
Lemma text_step_invariant (content : list Paragraph.item) (current_text : str)
    (c : child) :
  Forall kept content ->
  let (content', current_text') := text_step (content, current_text) c in
  texts_of content' ++ current_text'
  = (texts_of content ++ current_text) ++ child_text c
  /\ links_of content' = links_of content ++ link_targets [c]
  /\ Forall kept content'.
Proof.
  intros Hkept. destruct c as [s|name href text]; cbn [text_step].
  - split; [apply app_assoc|]. split; [simpl; rewrite app_nil_r; reflexivity|exact Hkept].
  - assert (Hother :
              let (content', current_text') :=
                if negb (str_eqb name (lit "br"))
                then (content, if truthy text then current_text ++ text else current_text)
                else (content, current_text) in
              texts_of content' ++ current_text'
              = (texts_of content ++ current_text)
                ++ (if str_eqb name (lit "br") then [] else text)
              /\ Forall kept content' /\ content' = content).
    { destruct (str_eqb name (lit "br")); simpl.
      - rewrite app_nil_r. auto.
      - destruct text as [|x text]; simpl.
        + rewrite app_nil_r. auto.
        + rewrite app_assoc. auto. }
    destruct href as [url|].
    + destruct (str_eqb name (lit "a") && truthy url) eqn:Ea.
      * apply andb_true_iff in Ea as [Hname Hurl].
        apply str_eqb_eq in Hname. subst name.
        cbn [child_text link_targets flat_map].
        change (str_eqb (lit "a") (lit "br")) with false.
        change (str_eqb (lit "a") (lit "a")) with true.
        rewrite Hurl. cbn [andb app].
        destruct current_text as [|x cur]; cbn [truthy].
        -- rewrite !texts_of_app, !links_of_app. cbn [texts_of links_of map concat flat_map
                                                      Link.url app].
           rewrite !app_nil_r.
           split; [destruct text; simpl; rewrite ?app_nil_r; reflexivity|].
           split; [reflexivity|].
           apply Forall_app. split; [exact Hkept|].
           constructor; [apply kept_link|constructor].
        -- rewrite !texts_of_app, !links_of_app. cbn [texts_of links_of map concat flat_map
                                                      Link.url app].
           rewrite !app_nil_r.
           split; [destruct text; simpl; rewrite ?app_nil_r; reflexivity|].
           split; [reflexivity|].
           apply Forall_app. split.
           ++ apply Forall_app. split; [exact Hkept|].
              constructor; [apply kept_text; reflexivity|constructor].
           ++ constructor; [apply kept_link|constructor].
      * cbn [child_text link_targets flat_map]. rewrite Ea.
        destruct (if negb (str_eqb name (lit "br"))
                  then (content, if truthy text then current_text ++ text else current_text)
                  else (content, current_text)) as [content' current_text'].
        destruct Hother as (H1 & H2 & ->).
        split; [exact H1|]. split; [simpl; rewrite app_nil_r; reflexivity|exact H2].
    + cbn [child_text link_targets flat_map].
      destruct (if negb (str_eqb name (lit "br"))
                then (content, if truthy text then current_text ++ text else current_text)
                else (content, current_text)) as [content' current_text'].
      destruct Hother as (H1 & H2 & ->).
      split; [exact H1|]. split; [simpl; rewrite app_nil_r; reflexivity|exact H2].
Qed.

Lemma link_targets_app (a b : list child) :
  link_targets (a ++ b) = link_targets a ++ link_targets b.
Proof. unfold link_targets. apply flat_map_app. Qed.

Lemma text_loop_invariant (children : list child) (content : list Paragraph.item)
    (current_text : str) :
  Forall kept content ->
  let (content', current_text') := fold_left text_step children (content, current_text) in
  texts_of content' ++ current_text'
  = (texts_of content ++ current_text) ++ concat (map child_text children)
  /\ links_of content' = links_of content ++ link_targets children
  /\ Forall kept content'.
Proof.
  revert content current_text.
  induction children as [|c rest IH]; intros content current_text Hkept.
  - simpl. rewrite !app_nil_r. auto.
  - cbn [fold_left].
    pose proof (text_step_invariant content current_text c Hkept) as Hstep.
    destruct (text_step (content, current_text) c) as [content1 current1].
    destruct Hstep as (Ht & Hl & Hk).
    pose proof (IH content1 current1 Hk) as Hrest.
    destruct (fold_left text_step rest (content1, current1)) as [content2 current2].
    destruct Hrest as (Ht2 & Hl2 & Hk2).
    split; [|split; [|exact Hk2]].
    + rewrite Ht2, Ht. cbn [map concat]. rewrite <- !app_assoc. reflexivity.
    + rewrite Hl2, Hl. change (c :: rest) with ([c] ++ rest).
      rewrite link_targets_app, <- app_assoc. reflexivity.
Qed.

End TextLoop.

Section Extracted.

Import BBCArticleExtractor.

Lemma link_targets_http (children : list child) :
  Forall (fun u => startswith (lit "http") u = true) (link_targets children).
Proof.
  induction children as [|c rest IH]; [constructor|].
  change (c :: rest) with ([c] ++ rest). rewrite link_targets_app.
  apply Forall_app. split; [|exact IH].
  destruct c as [s|name [url|] text]; cbn [link_targets flat_map app]; try constructor.
  destruct (str_eqb name (lit "a") && truthy url); constructor;
    [apply absolute_starts_with_http | constructor].
Qed.

Lemma extracted_paragraph_parts (e : element) :
  Forall kept (Paragraph.content (_extract_text_with_links e))
  /\ match contents e with
     | [] =>
         links_of (Paragraph.content (_extract_text_with_links e)) = []
         /\ texts_of (Paragraph.content (_extract_text_with_links e))
            = match string e with Some s => strip s | None => [] end
     | _ :: _ =>
         links_of (Paragraph.content (_extract_text_with_links e))
         = link_targets (contents e)
         /\ texts_of (Paragraph.content (_extract_text_with_links e))
            = concat (map child_text (contents e))
     end.
Proof.
  unfold _extract_text_with_links.
  destruct (contents e) as [|c rest] eqn:Hc.
  - destruct (string e) as [s|]; [|split; [constructor|split; reflexivity]].
    destruct (truthy s) eqn:Hs; cbn [andb].
    + destruct (strip s) as [|x stripped] eqn:Hst; cbn [truthy Paragraph.content].
      * split; [constructor|split; reflexivity].
      * split; [constructor; [reflexivity|constructor]|].
        split; [reflexivity|]. unfold texts_of. simpl. rewrite app_nil_r. reflexivity.
    + destruct s; [|discriminate]. split; [constructor|split; reflexivity].
  - pose proof (text_loop_invariant (c :: rest) [] [] (Forall_nil _)) as Hloop.
    destruct (fold_left text_step (c :: rest) ([], [])) as [content current_text] eqn:Hfold.
    unfold str in Hfold, Hloop. rewrite Hfold in Hloop.
    destruct Hloop as (Ht & Hl & Hk).
    change (texts_of []) with (@nil N) in Ht. change (links_of []) with (@nil str) in Hl.
    cbn [app] in Ht, Hl.
    destruct current_text as [|x cur]; cbn [truthy Paragraph.content].
    + rewrite app_nil_r in Ht. auto.
    + split; [apply Forall_app; split; [exact Hk|constructor; [reflexivity|constructor]]|].
      rewrite links_of_app, texts_of_app. cbn [links_of texts_of flat_map map concat].
      rewrite !app_nil_r. auto.
Qed.

End Extracted.

(** The paragraph that [_extract_text_with_links] builds holds no empty
    item, and every link in it has an address that starts with [http].
    When the element has children, no text is lost and none is invented:
    the texts of the paragraph, put together, are the texts of the
    children in order (a string as it is, a tag by its text whatever that
    text is, whitespace included, a line break giving nothing), and its
    links are the anchors with a non-empty [href], in order, made
    absolute.  When it has none, the paragraph has no link and its text
    is the element's own string with the whitespace at its ends removed,
    as one item, or as no item when nothing is left. *)
Theorem extracted_paragraph_keeps_the_text (e : BBCArticleExtractor.element) :
  let p := BBCArticleExtractor._extract_text_with_links e in
  Forall kept (Paragraph.content p)
  /\ Forall (fun u => startswith (lit "http") u = true) (links_of (Paragraph.content p))
  /\ (BBCArticleExtractor.contents e <> [] ->
      texts_of (Paragraph.content p)
      = concat (map child_text (BBCArticleExtractor.contents e))
      /\ links_of (Paragraph.content p) = link_targets (BBCArticleExtractor.contents e))
  /\ (BBCArticleExtractor.contents e = [] ->
      links_of (Paragraph.content p) = []
      /\ texts_of (Paragraph.content p)
         = match BBCArticleExtractor.string e with Some s => strip s | None => [] end
      /\ trimmed (texts_of (Paragraph.content p))
      /\ (Paragraph.content p = []
          \/ Paragraph.content p = [Paragraph.Text (texts_of (Paragraph.content p))])).
Proof.
  intros p. subst p.
  destruct (extracted_paragraph_parts e) as [Hkept Hparts].
  split; [exact Hkept|].
  destruct (BBCArticleExtractor.contents e) as [|c rest] eqn:Hc.
  - destruct Hparts as [Hl Ht].
    split; [rewrite Hl; constructor|]. split; [intros H; contradiction|].
    intros _. split; [exact Hl|]. split; [exact Ht|]. split.
    + rewrite Ht. destruct (BBCArticleExtractor.string e); [apply strip_trimmed|].
      split; exact I.
    + unfold BBCArticleExtractor._extract_text_with_links. rewrite Hc.
      destruct (BBCArticleExtractor.string e) as [s|]; [|left; reflexivity].
      destruct (truthy s && truthy (strip s)); [right|left; reflexivity].
      cbn [Paragraph.content]. unfold texts_of. simpl. rewrite app_nil_r. reflexivity.
  - destruct Hparts as [Hl Ht].
    split; [rewrite Hl; apply link_targets_http|].
    split; [intros _; split; [exact Ht | exact Hl]|].
    intros H. discriminate.
Qed.

(** A paragraph with text, a relative link and a line break. *)
Lemma extracted_paragraph_keeps_the_text_witness :
  let e :=
    BBCArticleExtractor.Element
      [BBCArticleExtractor.NavigableString (lit "Read ");
       BBCArticleExtractor.Tag (lit "a") (Some (lit "/news/world")) (lit "more");
       BBCArticleExtractor.Tag (lit "br") None [];
       BBCArticleExtractor.NavigableString (lit " here.")]
      None in
  let p := BBCArticleExtractor._extract_text_with_links e in
  texts_of (Paragraph.content p)
  = concat (map child_text (BBCArticleExtractor.contents e))
  /\ links_of (Paragraph.content p) = link_targets (BBCArticleExtractor.contents e).
Proof.
  intros e p.
  apply (proj1 (proj2 (proj2 (extracted_paragraph_keeps_the_text e)))).
  discriminate.
Defined.

Lemma extracted_image_parts (f : BBCArticleExtractor.figure) (image : Image.t) :
  BBCArticleExtractor._extract_image f = Some image ->
  truthy (Image.url image) = true
  /\ Image.caption image
     = match BBCArticleExtractor.figcaption f with
       | Some text => strip text
       | None => []
       end
  /\ exists src data_src,
       BBCArticleExtractor.img f = Some (src, data_src)
       /\ Image.url image
          = if truthy (BBCArticleExtractor.get src [])
            then BBCArticleExtractor.get src []
            else BBCArticleExtractor.get data_src [].
Proof.
  unfold BBCArticleExtractor._extract_image.
  destruct (BBCArticleExtractor.img f) as [[src data_src]|]; [|discriminate].
  cbv zeta.
  destruct (truthy (BBCArticleExtractor.get src [])) eqn:Hsrc; cbn [negb].
  - rewrite Hsrc. cbn [negb]. intros H. injection H as <-.
    cbn [Image.url Image.caption]. split; [exact Hsrc|]. split; [reflexivity|].
    exists src, data_src. split; [reflexivity|]. rewrite Hsrc. reflexivity.
  - destruct (truthy (BBCArticleExtractor.get data_src [])) eqn:Hdata; cbn [negb];
      [|discriminate].
    intros H. injection H as <-.
    cbn [Image.url Image.caption]. split; [exact Hdata|]. split; [reflexivity|].
    exists src, data_src. split; [reflexivity|]. rewrite Hsrc. reflexivity.
Qed.

(** An image that [_extract_image] returns has a non-empty address, taken
    from [src] and from [data-src] only when [src] is missing or empty, so
    its canonical form is never empty; its caption has no whitespace at
    either end.  A caption element of whitespace only gives the image
    that no caption element gives. *)
Theorem extracted_image_has_an_address (f : BBCArticleExtractor.figure)
    (image : Image.t) :
  BBCArticleExtractor._extract_image f = Some image ->
  Image.url image <> []
  /\ Image.to_sexp image <> []
  /\ trimmed (Image.caption image)
  /\ (exists src data_src,
         BBCArticleExtractor.img f = Some (src, data_src)
         /\ Image.url image
            = if truthy (BBCArticleExtractor.get src [])
              then BBCArticleExtractor.get src []
              else BBCArticleExtractor.get data_src [])
  /\ (forall spaces,
         BBCArticleExtractor.figcaption f = Some spaces ->
         strip spaces = [] ->
         BBCArticleExtractor._extract_image
           (BBCArticleExtractor.Figure (BBCArticleExtractor.img f) None)
         = Some image).
Proof.
  intros Hrun.
  destruct (extracted_image_parts f image Hrun) as (Hurl & Hcap & Hsrc).
  split; [apply truthy_nonempty; exact Hurl|].
  split.
  { intros H. apply (f_equal truthy) in H.
    unfold Image.to_sexp in H. cbv zeta in H.
    rewrite create_object_truthy, truthy_app, create_object_truthy,
      create_string_truthy, Hurl in H. discriminate. }
  split.
  { rewrite Hcap. destruct (BBCArticleExtractor.figcaption f);
      [apply strip_trimmed | split; exact I]. }
  split; [exact Hsrc|].
  intros spaces Hfig Hstrip.
  unfold BBCArticleExtractor._extract_image in *.
  cbn [BBCArticleExtractor.img BBCArticleExtractor.figcaption].
  rewrite Hfig, Hstrip in Hrun. exact Hrun.
Qed.

(** An image whose address is in [data-src], with a caption to trim. *)
Lemma extracted_image_has_an_address_witness :
  let f :=
    BBCArticleExtractor.Figure (Some (Some [], Some (lit "https://i.bbc.com/x.jpg")))
                               (Some (lit "  A view  ")) in
  let image := Image.mk (lit "https://i.bbc.com/x.jpg") (lit "A view") in
  Image.url image <> []
  /\ Image.to_sexp image <> []
  /\ trimmed (Image.caption image)
  /\ (exists src data_src,
         BBCArticleExtractor.img f = Some (src, data_src)
         /\ Image.url image
            = if truthy (BBCArticleExtractor.get src [])
              then BBCArticleExtractor.get src []
              else BBCArticleExtractor.get data_src [])
  /\ (forall spaces,
         BBCArticleExtractor.figcaption f = Some spaces ->
         strip spaces = [] ->
         BBCArticleExtractor._extract_image
           (BBCArticleExtractor.Figure (BBCArticleExtractor.img f) None)
         = Some image).
Proof.
  intros f image.
  apply (extracted_image_has_an_address f image).
  vm_compute. reflexivity.
Defined.

Lemma body_step_appends (elements : list ArticleBody.element)
    (b : BBCArticleExtractor.block) :
  BBCArticleExtractor.body_step elements b
  = elements ++ BBCArticleExtractor.body_step [] b
  /\ (length (BBCArticleExtractor.body_step [] b) <= 1)%nat
  /\ Forall (fun e => blank e = false) (BBCArticleExtractor.body_step [] b).
Proof.
  unfold BBCArticleExtractor.body_step.
  destruct (str_eqb (BBCArticleExtractor.name b) (lit "p")
            && truthy (strip (BBCArticleExtractor.text b))).
  { destruct (extracted_paragraph_parts (BBCArticleExtractor.as_element b)) as [Hkept _].
    destruct (Paragraph.content
                (BBCArticleExtractor._extract_text_with_links
                   (BBCArticleExtractor.as_element b))) as [|i items] eqn:Hcontent.
    - rewrite app_nil_r. split; [reflexivity|]. split; [apply Nat.le_0_l|constructor].
    - split; [reflexivity|]. split; [apply Nat.le_refl|].
      constructor; [|constructor]. cbn [blank]. rewrite Hcontent.
      inversion Hkept as [|? ? Hi _]; subst. cbn [forallb].
      unfold kept in Hi. rewrite Hi. reflexivity. }
  destruct (str_eqb (BBCArticleExtractor.name b) (lit "h2")
            && truthy (strip (BBCArticleExtractor.text b))) eqn:Hh2.
  { split; [reflexivity|]. split; [apply Nat.le_refl|].
    constructor; [|constructor]. cbn [blank Subheading.text].
    apply andb_true_iff in Hh2 as [_ ->]. reflexivity. }
  destruct (str_eqb (BBCArticleExtractor.name b) (lit "figure")).
  { destruct (BBCArticleExtractor._extract_image (BBCArticleExtractor.as_figure b))
      as [image|] eqn:Himage.
    - split; [reflexivity|]. split; [apply Nat.le_refl|].
      constructor; [|constructor]. cbn [blank].
      destruct (extracted_image_parts _ _ Himage) as (-> & _). reflexivity.
    - rewrite app_nil_r. split; [reflexivity|]. split; [apply Nat.le_0_l|constructor]. }
  rewrite app_nil_r. split; [reflexivity|]. split; [apply Nat.le_0_l|constructor].
Qed.

Lemma body_loop_flat_map (blocks : list BBCArticleExtractor.block)
    (elements : list ArticleBody.element) :
  fold_left BBCArticleExtractor.body_step blocks elements
  = elements ++ flat_map (BBCArticleExtractor.body_step []) blocks.
Proof.
  revert elements. induction blocks as [|b rest IH]; intros elements; simpl.
  - symmetry. apply app_nil_r.
  - rewrite IH. destruct (body_step_appends elements b) as (-> & _).
    symmetry. apply app_assoc.
Qed.

(** The body that [extract] builds: every element in it holds a character,
    so each one shows in the canonical form of the body and none is lost
    to the hash; the blocks contribute in their order, each at most one
    element, so the body of a page is the body of its first part followed
    by the body of the rest. *)
Theorem extracted_body_has_no_blank_element
    (blocks more : list BBCArticleExtractor.block) :
  Forall (fun e => blank e = false /\ ArticleBody.element_to_sexp e <> [])
         (ArticleBody.elements (BBCArticleExtractor.extract_body blocks))
  /\ (length (ArticleBody.elements (BBCArticleExtractor.extract_body blocks))
      <= length blocks)%nat
  /\ ArticleBody.elements (BBCArticleExtractor.extract_body (blocks ++ more))
     = ArticleBody.elements (BBCArticleExtractor.extract_body blocks)
       ++ ArticleBody.elements (BBCArticleExtractor.extract_body more)
  /\ (ArticleBody.elements (BBCArticleExtractor.extract_body blocks) <> [] ->
      ArticleBody.to_sexp (BBCArticleExtractor.extract_body blocks) <> []).
Proof.
  unfold BBCArticleExtractor.extract_body. cbn [ArticleBody.elements].
  rewrite !body_loop_flat_map. cbn [app].
  assert (Hall : Forall (fun e => blank e = false /\ ArticleBody.element_to_sexp e <> [])
                        (flat_map (BBCArticleExtractor.body_step []) blocks)).
  { induction blocks as [|b rest IH]; [constructor|].
    cbn [flat_map]. apply Forall_app. split; [|exact IH].
    destruct (body_step_appends [] b) as (_ & _ & Hb).
    eapply Forall_impl; [|exact Hb]. intros x Hx. split; [exact Hx|].
    intros H. apply blank_spec in H. congruence. }
  split; [exact Hall|]. split.
  { clear Hall. induction blocks as [|b rest IH]; [apply Nat.le_refl|].
    cbn [flat_map]. rewrite length_app. simpl length.
    destruct (body_step_appends [] b) as (_ & Hlen & _). lia. }
  split; [apply flat_map_app|].
  intros Hne H.
  rewrite body_to_sexp_concat in H. cbn [ArticleBody.elements] in H.
  apply create_object_empty, concat_empty in H.
  destruct (flat_map (BBCArticleExtractor.body_step []) blocks) as [|x xs];
    [contradiction|].
  inversion Hall as [|? ? [_ Hx] _]; subst.
  inversion H as [|? ? Hx0 _]; subst. contradiction.
Qed.

(** The body of a page with one subheading. *)
Lemma extracted_body_has_no_blank_element_witness :
  let blocks :=
    [BBCArticleExtractor.Block (lit "h2") (lit " Summary ")
       (BBCArticleExtractor.Element [] None) (BBCArticleExtractor.Figure None None)] in
  ArticleBody.to_sexp (BBCArticleExtractor.extract_body blocks) <> [].
Proof.
  intros blocks.
  apply (proj2 (proj2 (proj2 (extracted_body_has_no_blank_element blocks [])))).
  vm_compute. discriminate.
Defined.

(** ** Default rules on a ledger that holds nothing else *)

Lemma process_url_matched (e : env) (url : str) (w : world) (rule : Rule.t)
    (post : list Rule.t) :
  rules (self w) = rule :: post ->
  hits url rule ->
  exists result w2,
    process_url e url w = Some (result, w2) /\ rules (self w2) = rules (self w).
Proof.
  intros Hrules Hrule.
  pose (w1 := logged INFO (lit "Found matching rule for " ++ url) w).
  assert (Hfind : find_matching_rule url w = Some (Some rule, w1)).
  { unfold find_matching_rule, bind, read. rewrite Hrules.
    apply first_match_stops. exact Hrule. }
  rewrite (process_url_resolved e url w _ _ (resolved_match e url w _ _ Hfind)).
  destruct (apply_rule_keeps_rules e url w1 rule) as (result & w2 & Hrun & Hkeep & _).
  exists result, w2. split; [exact Hrun | exact Hkeep].
Qed.

(** On a ledger whose rules all carry the default pattern (as when no rule
    was ever registered by hand), a call for an eligible URL registers one
    more default rule exactly when the ledger has no rule yet or the URL
    is not covered by the default pattern.  So an eligible URL outside
    that pattern adds a copy of the default rule at every call. *)
Theorem default_rules_pile_up (e : env) (url : str) (w : world) :
  Forall (fun r => Rule.pattern r = default_pattern) (rules (self w)) ->
  eligible url = true ->
  exists result w2,
    process_url e url w = Some (result, w2)
    /\ rules (self w2)
       = match rules (self w) with
         | [] => [default_rule (source_id (self w)) (rule_time e)]
         | _ :: _ =>
             if covered url then rules (self w)
             else rules (self w) ++ [default_rule (source_id (self w)) (rule_time e)]
         end
    /\ Forall (fun r => Rule.pattern r = default_pattern) (rules (self w2)).
Proof.
  intros Hall Hel.
  assert (Hgrow : Forall (misses url) (rules (self w)) ->
                  exists result w2,
                    process_url e url w = Some (result, w2)
                    /\ rules (self w2)
                       = rules (self w)
                         ++ [default_rule (source_id (self w)) (rule_time e)]
                    /\ Forall (fun r => Rule.pattern r = default_pattern)
                              (rules (self w2))).
  { intros Hmiss.
    destruct (process_url_registers e url w Hmiss Hel) as (result & w2 & Hrun & Hrules & _).
    exists result, w2. split; [exact Hrun|]. split; [exact Hrules|].
    rewrite Hrules. apply Forall_app. split; [exact Hall|].
    constructor; [reflexivity|constructor]. }
  destruct (rules (self w)) as [|rule post] eqn:Hrules.
  - apply Hgrow. constructor.
  - destruct (covered url) eqn:Hcov.
    + destruct (process_url_matched e url w rule post Hrules) as (result & w2 & Hrun & Hkeep).
      { unfold hits. inversion Hall as [|? ? Hp _]; subst.
        rewrite Hp, re_match_default, Hcov. reflexivity. }
      exists result, w2. split; [exact Hrun|]. rewrite Hkeep, Hrules.
      split; [reflexivity | exact Hall].
    + apply Hgrow. eapply Forall_impl; [|exact Hall].
      intros r Hp. unfold misses. rewrite Hp, re_match_default, Hcov. reflexivity.
Qed.

(** The mobile address on a ledger that already holds two default rules. *)
Lemma default_rules_pile_up_witness :
  let w :=
    World (mk (lit "src")
              [default_rule (lit "src") 1700000100; default_rule (lit "src") 1700000200]
              [] [])
          [] [] in
  exists result w2,
    process_url returning mobile_url w = Some (result, w2)
    /\ rules (self w2)
       = match rules (self w) with
         | [] => [default_rule (source_id (self w)) (rule_time returning)]
         | _ :: _ =>
             if covered mobile_url then rules (self w)
             else rules (self w)
                  ++ [default_rule (source_id (self w)) (rule_time returning)]
         end
    /\ Forall (fun r => Rule.pattern r = default_pattern) (rules (self w2)).
Proof.
  intros w.
  apply (default_rules_pile_up returning mobile_url w).
  - repeat constructor.
  - vm_compute. reflexivity.
Defined.

(** As long as every registered pattern is a regular expression of the
    modelled syntax, [process_url] returns, whatever the URL and whatever
    the extractor does, and the patterns registered afterwards are such
    expressions again: the call can be repeated for ever. *)
Theorem process_url_returns_on_valid_patterns (e : env) (url : str) (w : world) :
  Forall compiles (rules (self w)) ->
  exists result w2,
    process_url e url w = Some (result, w2)
    /\ Forall compiles (rules (self w2)).
Proof. apply process_url_returns. Qed.

(** A ledger with the two rules of the example, and a failing extractor. *)
Lemma process_url_returns_on_valid_patterns_witness :
  let w :=
    World (mk (lit "src")
              [Rule.mk (lit "src") 1 (lit "https://x/a.*") (lit "h1") (lit "article") None;
               Rule.mk (lit "src") 2 (lit "https://x/.*") (lit "h2") (lit "article") None]
              [] [])
          [] [] in
  exists result w2,
    process_url (raising []) (lit "https://x/b") w = Some (result, w2)
    /\ Forall compiles (rules (self w2)).
Proof.
  intros w.
  apply (process_url_returns_on_valid_patterns (raising []) (lit "https://x/b") w).
  repeat constructor; unfold compiles; vm_compute; discriminate.
Defined.
